(** * Amazon CAPTCHA solver: the text corrector and the attempt loop

    A shallow embedding of [captcha_solver.py] (class [AmazonCaptchaSolver]),
    [selenium_captcha_solver.py] (class [SeleniumCaptchaSolver]) and
    [playwright_captcha_solver.py] (class [PlaywrightCaptchaSolver]).

    The browser, the HTTP client, OpenCV, EasyOCR, the clock and the
    operating system are external: every call to them is an event answered
    by an oracle over an abstract world.  What the solver itself computes
    (the text corrector, the attempt loop, the clean-up, the manual
    fallback) is translated function by function.

    Left out: the calls to [logger], which change no control flow, and
    exceptions outside [Exception] (a keyboard interrupt, say), which no
    handler of the solvers is meant for. *)

From Stdlib Require Import ZArith NArith QArith Qround Qpower Lqa List Ascii
  String Lia.
From stdpp Require Import base tactics option list gmap pretty.
Import ListNotations.

Local Open Scope Z_scope.

(** ** Python strings

    A Python [str] is a sequence of Unicode code points. *)

Definition codepoint := N.
Definition pystr := list codepoint.

(** [len(s)] *)
Definition len (s : pystr) : Z := Z.of_nat (length s).

(** An ASCII literal as a Python string. *)
Definition py (s : string) : pystr := map N_of_ascii (list_ascii_of_string s).

(** [str.isalnum], [str.upper] and [str.isspace] are decided by the Unicode
    character database of the interpreter.  Their ASCII rows are written
    out below; the rows of the other code points are a parameter. *)
Record Unicode := {
  uni_isalnum : codepoint -> bool;
  uni_upper : codepoint -> pystr;
  uni_isspace : codepoint -> bool
}.

Definition between (lo hi c : N) : bool := ((lo <=? c) && (c <=? hi))%N.

Definition is_ascii (c : codepoint) : bool := (c <? 128)%N.

Definition ascii_isalnum (c : codepoint) : bool :=
  between 48 57 c || between 65 90 c || between 97 122 c.

Definition ascii_upper (c : codepoint) : codepoint :=
  if between 97 122 c then (c - 32)%N else c.

Definition ascii_isspace (c : codepoint) : bool :=
  between 9 13 c || between 28 32 c.

Section Text.

Context (U : Unicode).

(** [c.isalnum()] for a one-character string [c]. *)
Definition isalnum (c : codepoint) : bool :=
  if is_ascii c then ascii_isalnum c else uni_isalnum U c.

(** The full upper-case mapping of one code point (it may expand to several,
    as for U+00DF). *)
Definition upper_cp (c : codepoint) : pystr :=
  if is_ascii c then [ascii_upper c] else uni_upper U c.

Definition isspace (c : codepoint) : bool :=
  if is_ascii c then ascii_isspace c else uni_isspace U c.

(** [s.upper()] *)
Definition upper (s : pystr) : pystr := flat_map upper_cp s.

(** [s.lstrip()], [s.rstrip()] and [s.strip()] with no argument. *)
Fixpoint lstrip (s : pystr) : pystr :=
  match s with
  | c :: s' => if isspace c then lstrip s' else s
  | [] => []
  end.

Definition rstrip (s : pystr) : pystr := rev (lstrip (rev s)).

Definition strip (s : pystr) : pystr := rstrip (lstrip s).

(** [''.join(parts)] *)
Definition join (parts : list pystr) : pystr := concat parts.

(** Does [s] start with [p]? *)
Fixpoint startswith (p s : pystr) : bool :=
  match p, s with
  | [], _ => true
  | a :: p', b :: s' => (a =? b)%N && startswith p' s'
  | _ :: _, [] => false
  end.

(** [s.replace(old, new)] for a non-empty [old]: the occurrences of [old]
    are replaced from the left and do not overlap.  [skip] counts the
    characters of a matched occurrence still to be passed over. *)
Fixpoint replace_from (old new : pystr) (skip : nat) (s : pystr) : pystr :=
  match s with
  | [] => []
  | c :: s' =>
      match skip with
      | S k => replace_from old new k s'
      | O =>
          if startswith old s
          then new ++ replace_from old new (length old - 1) s'
          else c :: replace_from old new 0 s'
      end
  end.

Definition replace (old new s : pystr) : pystr := replace_from old new 0 s.

(** The dictionary [replacements] of [_fix_common_errors]; a [dict] is
    iterated in insertion order. *)
Definition replacements : list (pystr * pystr) :=
  [ (py "0", py "O"); (py "1", py "I"); (py "5", py "S"); (py "8", py "B") ].

(** [_fix_common_errors(self, text)], the same in the three solver classes. *)
Definition _fix_common_errors (text : pystr) : pystr :=
  let text := upper (List.filter isalnum text) in
  fold_left (fun text '(error, correction) => replace error correction text)
            replacements text.

End Text.

(** *** The corrector as section 4.3 of the specification words it

    Remove every character that is not alphanumeric; upper-case the
    remainder; apply the ordered table of single-character substitutions,
    each rule to the whole string. *)

Definition substitution_table : list (codepoint * codepoint) :=
  [ (48, 79); (49, 73); (53, 83); (56, 66) ]%N.   (* 0→O, 1→I, 5→S, 8→B *)

Definition subst1 (old new c : codepoint) : codepoint :=
  if (old =? c)%N then new else c.

Definition reference_correct (U : Unicode) (s : pystr) : pystr :=
  let kept := List.filter (isalnum U) s in
  let uppered := upper U kept in
  fold_left (fun t '(old, new) => map (subst1 old new) t)
            substitution_table uppered.

(** The four substitutions on one character, in table order. *)
Definition substitute (c : codepoint) : codepoint :=
  (subst1 56 66 (subst1 53 83 (subst1 49 73 (subst1 48 79 c))))%N.

(** One of the digits 0, 1, 5, 8. *)
Definition is_digit_0158 (c : codepoint) : bool :=
  ((c =? 48) || (c =? 49) || (c =? 53) || (c =? 56))%N.

(** An upper-case ASCII letter or an ASCII digit. *)
Definition is_upper_alnum (c : codepoint) : bool :=
  between 65 90 c || between 48 57 c.

(** An upper-case ASCII letter or one of the digits 2, 3, 4, 6, 7, 9. *)
Definition canonical (c : codepoint) : bool :=
  is_upper_alnum c && negb (is_digit_0158 c).

(** ** Python floats

    A Python [float] is an IEEE 754 binary64 number; a finite one is taken
    here as the rational number it denotes.  The result of an arithmetic
    operation is the exact result rounded to the nearest float, ties going
    to the float with an even mantissa. *)

(** The largest [e] with [2^e <= x], for a positive [x]. *)
Definition floor_log2 (x : Q) : Z :=
  let e := Z.log2 (Qnum x) - Z.log2 (Zpos (Qden x)) in
  if Qle_bool (Qpower 2 e) x then e else e - 1.

(** The integer nearest to [x], the even one of the two when [x] lies
    halfway. *)
Definition round_half_even (x : Q) : Z :=
  let f := Qfloor x in
  match (x - inject_Z f ?= 1 # 2)%Q with
  | Lt => f
  | Gt => f + 1
  | Eq => if Z.even f then f else f + 1
  end.

(** The float nearest to a positive [x]: a mantissa of 53 bits, and the
    smallest exponent -1074 for the subnormal numbers. *)
Definition round_positive (x : Q) : Q :=
  let q := Z.max (floor_log2 x - 52) (-1074) in
  (inject_Z (round_half_even (x / Qpower 2 q)) * Qpower 2 q)%Q.

(** The float nearest to [x].  A result of magnitude [2^1024] or more stands
    for the infinity of its sign, which compares with a finite number as
    the result does. *)
Definition round_binary64 (x : Q) : Q :=
  match (x ?= 0)%Q with
  | Eq => 0%Q
  | Gt => round_positive x
  | Lt => (- round_positive (- x))%Q
  end.

(** [x - y] on floats. *)
Definition float_sub (x y : Q) : Q := round_binary64 (x - y).

(** ** The external world

    What the solver calls but does not define.  A call either returns a
    value or raises; which of the two, and the value, is the world's choice. *)

Definition bytes := list N.
Definition ndarray := list (list N).

(** The elements the solvers look up on the page: the text box
    [captchacharacters], the image whose [src] contains [captcha], the button
    [Continue shopping] and the link [Try different image]. *)
Inductive Locator :=
  | CaptchaInput | CaptchaImage | ContinueButton | TryDifferentImageLink.

(** What [_download_captcha_image] hands to [_preprocess_image]: the path of
    the saved download, or a [BytesIO] over the downloaded content. *)
Inductive ImageSrc :=
  | ImgPath (path : pystr)
  | ImgBuffer (content : bytes).

Inductive extE : Type -> Type :=
  (* os, open *)
  | Makedirs (path : pystr) : extE unit
  | WriteFile (path : pystr) (content : bytes) : extE unit
  | Remove (path : pystr) : extE unit
  (* easyocr *)
  | EasyocrReader (gpu : bool) : extE unit
  | Readtext (image : ndarray) (allowlist : pystr) : extE (list pystr)
  (* requests *)
  | RequestsGet (url : option pystr) : extE bytes
  (* cv2: decode or imread, cvtColor, CLAHE, GaussianBlur, threshold,
     dilate, erode, bitwise_not *)
  | CvPipeline (src : ImageSrc) : extE ndarray
  | Imwrite (path : pystr) (image : ndarray) : extE bool
  (* time *)
  | Sleep (secs : Z) : extE unit
  | Time : extE Q
  (* selenium *)
  | FindElement (loc : Locator) : extE unit
  | GetAttributeSrc : extE (option pystr)
  | Clear : extE unit
  | SendKeys (text : pystr) : extE unit
  | Click (loc : Locator) : extE unit
  | SaveScreenshot (path : pystr) : extE bool
  (* playwright *)
  | QuerySelector (loc : Locator) : extE bool
  | Fill (text : pystr) : extE unit
  | AwaitNavigation : extE unit
  | WaitForTimeout (ms : Z) : extE unit
  | Screenshot (path : pystr) : extE unit.

Inductive answer (T : Type) :=
  | Returns (v : T)
  | Raises.
Arguments Returns {T} v.
Arguments Raises {T}.

(** One external call together with its answer. *)
Inductive Event :=
  | Ev {T : Type} (call : extE T) (a : answer T).

(** The files and directories on disk, by path. *)
Abbreviation Disk := (gset pystr).

(** What a call does to the disk when it is answered.  A call that raises,
    or that reports that nothing was written, leaves the disk as it was. *)
Definition disk_effect {T} (call : extE T) : answer T -> Disk -> Disk :=
  match call in extE T return answer T -> Disk -> Disk with
  | Makedirs path => fun a d => match a with Returns _ => {[path]} ∪ d | Raises => d end
  | WriteFile path _ => fun a d => match a with Returns _ => {[path]} ∪ d | Raises => d end
  | Remove path => fun a d => match a with Returns _ => d ∖ {[path]} | Raises => d end
  | Imwrite path _ => fun a d => match a with Returns true => {[path]} ∪ d | _ => d end
  | SaveScreenshot path => fun a d => match a with Returns true => {[path]} ∪ d | _ => d end
  | Screenshot path => fun a d => match a with Returns _ => {[path]} ∪ d | Raises => d end
  | _ => fun _ d => d
  end.

(** The disk after a sequence of answered calls. *)
Definition replay (evs : list Event) (d : Disk) : Disk :=
  fold_left (fun d e => match e with Ev c a => disk_effect c a d end) evs d.

(** *** Reading a log of events *)

Definition Locator_eqb (a b : Locator) : bool :=
  match a, b with
  | CaptchaInput, CaptchaInput => true
  | CaptchaImage, CaptchaImage => true
  | ContinueButton, ContinueButton => true
  | TryDifferentImageLink, TryDifferentImageLink => true
  | _, _ => false
  end.

(** The call returned (it did not raise). *)
Definition returned (e : Event) : bool :=
  match e with Ev _ (Returns _) => true | Ev _ Raises => false end.

(** [driver.find_element] for [loc]. *)
Definition finds (loc : Locator) (e : Event) : bool :=
  match e with
  | Ev c _ => match c with FindElement l => Locator_eqb l loc | _ => false end
  end.

(** A click on [loc]. *)
Definition clicks (loc : Locator) (e : Event) : bool :=
  match e with
  | Ev c _ => match c with Click l => Locator_eqb l loc | _ => false end
  end.

(** [time.sleep(secs)] *)
Definition sleeps (secs : Z) (e : Event) : bool :=
  match e with
  | Ev c _ => match c with Sleep n => (n =? secs)%Z | _ => false end
  end.

(** The query for the challenge input found it absent: [find_element]
    raised, or [query_selector] returned [None]. *)
Definition input_absent (e : Event) : bool :=
  match e with
  | Ev c a =>
      match c in extE T return answer T -> bool with
      | FindElement CaptchaInput =>
          fun a => match a with Raises => true | _ => false end
      | QuerySelector CaptchaInput =>
          fun a => match a with Returns false => true | _ => false end
      | _ => fun _ => false
      end a
  end.

(** The text typed into the challenge input, if the event types one. *)
Definition submitted_text (e : Event) : option pystr :=
  match e with
  | Ev c _ =>
      match c with
      | SendKeys text => Some text
      | Fill text => Some text
      | _ => None
      end
  end.

Definition submitted (evs : list Event) : list pystr := omap submitted_text evs.

(** The path an event asks to delete. *)
Definition removed_path (e : Event) : option pystr :=
  match e with
  | Ev c _ => match c with Remove path => Some path | _ => None end
  end.

Definition removed (evs : list Event) : list pystr := omap removed_path evs.

Definition is_removal (e : Event) : bool :=
  match removed_path e with Some _ => true | None => false end.

(** The path an event asked to delete when the deletion raised. *)
Definition remove_raised (e : Event) : option pystr :=
  if returned e then None else removed_path e.

Definition failed_removals (evs : list Event) : list pystr :=
  omap remove_raised evs.

(** The path an event wrote: the effect of the event on any disk is to add
    this path. *)
Definition written_path (e : Event) : option pystr :=
  match e with
  | Ev c a =>
      match c in extE T return answer T -> option pystr with
      | Makedirs path => fun a => match a with Returns _ => Some path | _ => None end
      | WriteFile path _ => fun a => match a with Returns _ => Some path | _ => None end
      | Imwrite path _ => fun a => match a with Returns true => Some path | _ => None end
      | SaveScreenshot path => fun a => match a with Returns true => Some path | _ => None end
      | Screenshot path => fun a => match a with Returns _ => Some path | _ => None end
      | _ => fun _ => None
      end a
  end.

Definition written (evs : list Event) : list pystr := omap written_path evs.

(** The HTTP download of the challenge image. *)
Definition is_download (e : Event) : bool :=
  match e with
  | Ev c _ => match c with RequestsGet _ => true | _ => false end
  end.

(** A run of the recognition engine. *)
Definition is_recognition (e : Event) : bool :=
  match e with
  | Ev c _ => match c with Readtext _ _ => true | _ => false end
  end.

(** The construction of the recognition engine raised. *)
Definition engine_init_failed (e : Event) : bool :=
  match e with
  | Ev c a =>
      match c with
      | EasyocrReader _ => negb (returned (Ev c a))
      | _ => false
      end
  end.

(** The text [_recognize_captcha] makes of the answer of the engine. *)
Definition recognized_text (U : Unicode) (a : answer (list pystr)) : pystr :=
  match a with
  | Returns results => _fix_common_errors U (strip U (upper U (join results)))
  | Raises => py ""
  end.

(** The text recognised by the first run of the engine, and the events
    after that run. *)
Fixpoint after_recognition (U : Unicode) (evs : list Event)
    : option (pystr * list Event) :=
  match evs with
  | [] => None
  | Ev c a :: rest =>
      match c in extE T return answer T -> option (pystr * list Event) with
      | Readtext _ _ => fun a => Some (recognized_text U a, rest)
      | _ => fun _ => after_recognition U rest
      end a
  end.

(** The events of one call of [_try_different_image(self, driver)]: the
    link is looked up, clicked if found, and one second is slept if the
    click went through. *)
Definition is_new_image_request (evs : list Event) : bool :=
  match evs with
  | [e1] => finds TryDifferentImageLink e1 && negb (returned e1)
  | [e1; e2] =>
      finds TryDifferentImageLink e1 && returned e1 &&
      clicks TryDifferentImageLink e2 && negb (returned e2)
  | [e1; e2; e3] =>
      finds TryDifferentImageLink e1 && returned e1 &&
      clicks TryDifferentImageLink e2 && returned e2 &&
      sleeps 1 e3
  | _ => false
  end.

(** The event after the first [time.sleep(3)] that returned, and the events
    after it: what follows a submission. *)
Fixpoint after_submission (evs : list Event)
    : option (Event * list Event) :=
  match evs with
  | [] => None
  | e :: rest =>
      if sleeps 3 e && returned e then
        match rest with
        | q :: post => Some (q, post)
        | [] => None
        end
      else after_submission rest
  end.

(** ** The monad of solver code: state, a log of events, exceptions *)

Inductive exn :=
  | ExternalError      (* raised by an external call *)
  | AttributeError.    (* a method the class does not define *)

Inductive result (A : Type) :=
  | Ok (v : A)
  | Raise (e : exn)
  | OutOfFuel.         (* the model of a loop ran out of fuel *)
Arguments Ok {A} v.
Arguments Raise {A} e.
Arguments OutOfFuel {A}.

Section Solver.

Context (U : Unicode).
Context {World : Type}.
Context (ext : forall T, extE T -> World -> answer T * World).

Record State := mkState { world : World; disk : Disk }.

Record Run (A : Type) := mkRun {
  res : result A;
  events : list Event;
  final : State
}.
Arguments mkRun {A}.
Arguments res {A}.
Arguments events {A}.
Arguments final {A}.

Definition M (A : Type) := State -> Run A.

Definition ret {A} (v : A) : M A := fun s => mkRun (Ok v) [] s.

Definition raise {A} (e : exn) : M A := fun s => mkRun (Raise e) [] s.

Definition out_of_fuel {A} : M A := fun s => mkRun OutOfFuel [] s.

Definition bind {A B} (m : M A) (f : A -> M B) : M B := fun s =>
  match m s with
  | mkRun (Ok v) evs s' =>
      match f v s' with
      | mkRun r evs' s'' => mkRun r (evs ++ evs') s''
      end
  | mkRun (Raise e) evs s' => mkRun (Raise e) evs s'
  | mkRun OutOfFuel evs s' => mkRun OutOfFuel evs s'
  end.

(** [try: m  except: handler] and [try: m  except Exception: handler]. *)
Definition try_except {A} (m : M A) (handler : M A) : M A := fun s =>
  match m s with
  | mkRun (Raise _) evs s' =>
      match handler s' with
      | mkRun r evs' s'' => mkRun r (evs ++ evs') s''
      end
  | r => r
  end.

(** An external call: the world answers, the answer is logged and its
    effect on the disk recorded. *)
Definition call {T} (c : extE T) : M T := fun s =>
  match ext T c (world s) with
  | (Returns v, w) =>
      mkRun (Ok v) [Ev c (Returns v)]
            (mkState w (disk_effect c (Returns v) (disk s)))
  | (Raises, w) =>
      mkRun (Raise ExternalError) [Ev c Raises]
            (mkState w (disk_effect c Raises (disk s)))
  end.

(** [os.path.exists(path)] *)
Definition path_exists (path : pystr) : M bool := fun s =>
  mkRun (Ok (bool_decide (path ∈ disk s))) [] s.

Declare Scope solver_scope.
Delimit Scope solver_scope with solver.
Notation "x <- m ;; k" := (bind m (fun x => k))
  (at level 20, m at level 99, k at level 200, only parsing) : solver_scope.
Notation "m ;; k" := (bind m (fun _ => k))
  (at level 100, k at level 200, only parsing, right associativity) : solver_scope.
Local Open Scope solver_scope.

(** [for x in xs: f(x)] *)
Fixpoint for_each {A} (xs : list A) (f : A -> M unit) : M unit :=
  match xs with
  | [] => ret tt
  | x :: xs' => f x ;; for_each xs' f
  end.

(** [if cond: m] *)
Definition when (cond : bool) (m : M unit) : M unit :=
  if cond then m else ret tt.

(** [os.path.join(a, b)] on a POSIX system. *)
Definition path_join (a b : pystr) : pystr :=
  if startswith (py "/") b then b
  else match last a with
       | None => b
       | Some c => if (c =? 47)%N then a ++ b else a ++ py "/" ++ b
       end.

(** [str(n)] and [f"{n}"] for an [int]. *)
Definition str_of_int (n : Z) : pystr := py (pretty n).

(** ** The solver classes *)

Inductive SolverClass :=
  | AmazonCaptchaSolver
  | SeleniumCaptchaSolver
  | PlaywrightCaptchaSolver.

(** The attributes of a solver instance; [reader = None] records that
    EasyOCR could not be initialised. *)
Record Solver := mkSolver {
  class : SolverClass;
  output_dir : pystr;
  save_debug_output : bool;
  reader : option unit
}.

(** [easyocr.Reader(['en'], gpu=...)]: the one difference between the three
    constructors. *)
Definition gpu (c : SolverClass) : bool :=
  match c with AmazonCaptchaSolver => false | _ => true end.

(** [__init__(self, output_dir, save_debug_output)] *)
Definition __init__ (c : SolverClass) (output_dir : pystr)
    (save_debug_output : bool) : M Solver :=
  dir_exists <- path_exists output_dir ;;
  when (save_debug_output && negb dir_exists) (call (Makedirs output_dir)) ;;
  reader <- try_except (call (EasyocrReader (gpu c)) ;; ret (Some tt))
                       (ret None) ;;
  ret (mkSolver c output_dir save_debug_output reader).

Section Methods.

Context (self : Solver).

Definition temp_img_path : pystr :=
  path_join (output_dir self) (py "temp_captcha.png").

Definition preprocessed_path : pystr :=
  path_join (output_dir self) (py "preprocessed_captcha.png").

Definition screenshot_path (attempt : Z) : pystr :=
  path_join (output_dir self)
            (py "captcha_screenshot_" ++ str_of_int attempt ++ py ".png").

Definition manual_screenshot_path : pystr :=
  path_join (output_dir self) (py "captcha_manual_intervention.png").

(** The rest of [_download_captcha_image] once the image element is found:
    the same in the three classes. *)
Definition download_from_element : M (option ImageSrc) :=
  image_url <- call GetAttributeSrc ;;
  content <- call (RequestsGet image_url) ;;
  if save_debug_output self then
    call (WriteFile temp_img_path content) ;;
    ret (Some (ImgPath temp_img_path))
  else
    ret (Some (ImgBuffer content)).

(** [_download_captcha_image(self, driver)] of the two Selenium classes. *)
Definition _download_captcha_image : M (option ImageSrc) :=
  try_except
    (call (FindElement CaptchaImage) ;;
     download_from_element)
    (ret None).

(** [_download_captcha_image(self, page)] of the Playwright class. *)
Definition pw_download_captcha_image : M (option ImageSrc) :=
  try_except
    (captcha_img <- call (QuerySelector CaptchaImage) ;;
     if negb captcha_img then ret None
     else download_from_element)
    (ret None).

(** [_preprocess_image(self, image_path)] *)
Definition _preprocess_image (image_path : ImageSrc) : M (option ndarray) :=
  try_except
    (inverted <- call (CvPipeline image_path) ;;
     when (save_debug_output self)
          (call (Imwrite preprocessed_path inverted) ;; ret tt) ;;
     ret (Some inverted))
    (ret None).

Definition allowlist : pystr := py "ABCDEFGHIJKLMNOPQRSTUVWXYZ0123456789".

(** [_recognize_captcha(self, image)] *)
Definition _recognize_captcha (image : ndarray) : M pystr :=
  match reader self with
  | None => ret (py "")
  | Some _ =>
      try_except
        (results <- call (Readtext image allowlist) ;;
         let text := strip U (upper U (join results)) in
         let text := _fix_common_errors U text in
         ret text)
        (ret (py ""))
  end.

(** The list [files_to_clean] of [_cleanup_files]. *)
Definition files_to_clean (attempt : Z) : list pystr :=
  [ temp_img_path; preprocessed_path; screenshot_path attempt ].

(** [_cleanup_files(self, attempt, success)] of [AmazonCaptchaSolver]. *)
Definition _cleanup_files (attempt : Z) (success : bool) : M unit :=
  if negb (save_debug_output self) then ret tt
  else
    when success
      (for_each (files_to_clean attempt) (fun file_path =>
         present <- path_exists file_path ;;
         when present (try_except (call (Remove file_path)) (ret tt)))).

(** Looking up [self._cleanup_files]: only [AmazonCaptchaSolver] defines
    the method. *)
Definition self_cleanup_files (attempt : Z) (success : bool) : M unit :=
  match class self with
  | AmazonCaptchaSolver => _cleanup_files attempt success
  | _ => raise AttributeError
  end.

(** [_try_different_image(self, driver)] of the two Selenium classes. *)
Definition _try_different_image : M unit :=
  try_except
    (call (FindElement TryDifferentImageLink) ;;
     call (Click TryDifferentImageLink) ;;
     call (Sleep 1))
    (ret tt).

(** [_try_different_image(self, page)] of the Playwright class;
    [page.get_by_text] builds a locator without querying the page, and a
    locator is truthy. *)
Definition pw_try_different_image : M unit :=
  try_except
    (call (Click TryDifferentImageLink) ;;
     call (WaitForTimeout 1000))
    (ret tt).

(** How one pass through the body of the [while] loop ends: by [return], or
    by reaching the loop test again with a new value of [attempt]. *)
Inductive Step :=
  | Return (value : bool)
  | Continue (attempt : Z).

(** The body of the [while] loop in [solve_captcha] of
    [AmazonCaptchaSolver] and [SeleniumCaptchaSolver]. *)
Definition attempt_body (attempt : Z) : M Step :=
  try_except
    (input_field <- try_except (call (FindElement CaptchaInput) ;; ret true)
                               (ret false) ;;
     if negb input_field then ret (Return true) else
     image_path <- _download_captcha_image ;;
     match image_path with
     | None => ret (Continue (attempt + 1))    (* [if not image_path]: a path is
                                                  not empty, a BytesIO is truthy *)
     | Some image_path =>
     when (save_debug_output self)
          (call (SaveScreenshot (screenshot_path attempt)) ;; ret tt) ;;
     preprocessed <- _preprocess_image image_path ;;
     match preprocessed with
     | None => ret (Continue (attempt + 1))
     | Some preprocessed =>
     captcha_text <- _recognize_captcha preprocessed ;;
     if len captcha_text <? 4 then
       _try_different_image ;;
       ret (Continue (attempt + 1))
     else
     call Clear ;;
     call (SendKeys captcha_text) ;;
     call (FindElement ContinueButton) ;;
     call (Click ContinueButton) ;;
     call (Sleep 3) ;;
     try_except
       (call (FindElement CaptchaInput) ;;
        _try_different_image ;;
        ret (Continue (attempt + 1)))
       (self_cleanup_files attempt true ;;
        ret (Return true))
     end end)
    (ret (Continue (attempt + 1))).

(** The body of the [while] loop in [solve_captcha] of
    [PlaywrightCaptchaSolver]. *)
Definition pw_attempt_body (attempt : Z) : M Step :=
  try_except
    (input_field <- call (QuerySelector CaptchaInput) ;;
     if negb input_field then ret (Return true) else
     image_path <- pw_download_captcha_image ;;
     match image_path with
     | None => ret (Continue (attempt + 1))
     | Some image_path =>
     when (save_debug_output self)
          (call (Screenshot (screenshot_path attempt))) ;;
     preprocessed <- _preprocess_image image_path ;;
     match preprocessed with
     | None => ret (Continue (attempt + 1))
     | Some preprocessed =>
     captcha_text <- _recognize_captcha preprocessed ;;
     if len captcha_text <? 4 then
       pw_try_different_image ;;
       ret (Continue (attempt + 1))
     else
     call (Click CaptchaInput) ;;
     call (Fill captcha_text) ;;
     (* with page.expect_navigation(wait_until="networkidle"): *)
     continue_button <- call (QuerySelector ContinueButton) ;;
     when continue_button (call (Click ContinueButton)) ;;
     call AwaitNavigation ;;
     still_there <- call (QuerySelector CaptchaInput) ;;
     if still_there then
       pw_try_different_image ;;
       ret (Continue (attempt + 1))
     else
       ret (Return true)
     end end)
    (ret (Continue (attempt + 1))).

(** The loop body of the class of [self]. *)
Definition loop_body : Z -> M Step :=
  match class self with
  | PlaywrightCaptchaSolver => pw_attempt_body
  | _ => attempt_body
  end.

(** [while attempt < max_attempts: body], followed by [return False].
    Besides the returned value the model gives the values [attempt] had at
    the successive loop tests.  [fuel] bounds the number of loop tests. *)
Fixpoint attempt_loop (max_attempts : Z) (fuel : nat) (attempt : Z)
    : M (bool * list Z) :=
  match fuel with
  | O => out_of_fuel
  | S fuel' =>
      if attempt <? max_attempts then
        step <- loop_body attempt ;;
        match step with
        | Return value => ret (value, [attempt])
        | Continue attempt' =>
            r <- attempt_loop max_attempts fuel' attempt' ;;
            ret (fst r, attempt :: snd r)
        end
      else ret (false, [attempt])
  end.

(** [solve_captcha(self, driver, max_attempts)], with the history of
    [attempt]. *)
Definition solve_captcha_run (max_attempts : Z) : M (bool * list Z) :=
  match reader self with
  | None => ret (false, [])
  | Some _ => attempt_loop max_attempts (S (Z.to_nat max_attempts)) 0
  end.

(** [solve_captcha(self, driver, max_attempts)] *)
Definition solve_captcha (max_attempts : Z) : M bool :=
  r <- solve_captcha_run max_attempts ;;
  ret (fst r).

Definition max_wait : Q := 120.

(** The [while] loop of [solve_captcha_with_fallback]; [time.time()] gives
    a float, and [time.time() - start_time] is the difference of two floats,
    rounded.  [fuel] bounds the number of loop tests. *)
Fixpoint wait_loop (fuel : nat) (start_time : Q) : M bool :=
  match fuel with
  | O => out_of_fuel
  | S fuel' =>
      now <- call Time ;;
      if Qlt_le_dec (float_sub now start_time) max_wait then
        gone <- try_except
                  (call (FindElement CaptchaInput) ;;
                   call (Sleep 2) ;;
                   ret false)
                  (present <- path_exists manual_screenshot_path ;;
                   when (save_debug_output self && present)
                        (try_except (call (Remove manual_screenshot_path))
                                    (ret tt)) ;;
                   ret true) ;;
        if gone then ret true else wait_loop fuel' start_time
      else ret false
  end.

(** [solve_captcha_with_fallback(self, driver, max_attempts)]; only
    [AmazonCaptchaSolver] defines it. *)
Definition solve_captcha_with_fallback (max_attempts : Z) (fuel : nat)
    : M bool :=
  match class self with
  | AmazonCaptchaSolver =>
      solved <- solve_captcha max_attempts ;;
      if solved then ret true else
      try_except
        (when (save_debug_output self)
              (call (SaveScreenshot manual_screenshot_path) ;; ret tt) ;;
         start_time <- call Time ;;
         wait_loop fuel start_time)
        (ret false)
  | _ => raise AttributeError
  end.

End Methods.

End Solver.

Arguments State : clear implicits.
Arguments Run : clear implicits.
Arguments M : clear implicits.
Arguments mkRun {World A}.
Arguments res {World A}.
Arguments events {World A}.
Arguments final {World A}.

(** ** What one pass through the loop body guarantees *)

(** A text of at least four characters with none of the digits 0, 1, 5, 8. *)
Definition ok_text (t : pystr) : Prop :=
  4 <= len t /\ Forall (fun c => is_digit_0158 c = false) t.

Section BodySpec.

Context (U : Unicode) {World : Type}.
Context (self : Solver) (attempt : Z) (s : State World) (r : Run World Step).

(** The pass ends the loop with [True] or goes on with [attempt + 1]. *)
Definition ends_well : Prop :=
  res r = Ok (Continue (attempt + 1)) \/ res r = Ok (Return true).

(** The engine is run at most once. *)
Definition recognizes_once : Prop :=
  (length (List.filter is_recognition (events r)) <= 1)%nat.

(** Nothing is deleted by a pass that goes on, nor by the Playwright class. *)
Definition keeps_files : Prop :=
  (res r = Ok (Continue (attempt + 1)) -> removed (events r) = []) /\
  (class self = PlaywrightCaptchaSolver -> removed (events r) = []).

(** The disk changes by the effects of the logged events only. *)
Definition tracks_disk : Prop :=
  disk (final r) = replay (events r) (disk s).

(** The pass starts by querying the challenge input; when it is absent the
    pass ends there, with [True]. *)
Definition detects_first : Prop :=
  match events r with
  | e :: rest => input_absent e = true -> rest = [] /\ res r = Ok (Return true)
  | [] => False
  end.

(** After a recognised text shorter than four characters: nothing is
    submitted, a new image is requested and the pass goes on. *)
Definition rejects_short : Prop :=
  class self <> PlaywrightCaptchaSolver ->
  forall text post,
    after_recognition U (events r) = Some (text, post) ->
    len text < 4 ->
    submitted (events r) = [] /\
    is_new_image_request post = true /\
    res r = Ok (Continue (attempt + 1)).

(** After a submission the challenge input is queried again.  Found: a new
    image is requested and the pass goes on.  Absent: the pass of
    [AmazonCaptchaSolver] deletes files and ends with [True]; that of
    [SeleniumCaptchaSolver] goes on with [attempt + 1]. *)
Definition verifies : Prop :=
  class self <> PlaywrightCaptchaSolver ->
  forall q post,
    after_submission (events r) = Some (q, post) ->
    finds CaptchaInput q = true /\
    (returned q = true ->
       is_new_image_request post = true /\
       res r = Ok (Continue (attempt + 1))) /\
    (returned q = false ->
       match class self with
       | AmazonCaptchaSolver =>
           forallb is_removal post = true /\ res r = Ok (Return true)
       | _ => post = [] /\ res r = Ok (Continue (attempt + 1))
       end).

(** A pass of [AmazonCaptchaSolver] with debug output that ends with [True]
    after a submission leaves none of its three files on disk, unless the
    deletion of the file raised. *)
Definition cleans_up : Prop :=
  class self = AmazonCaptchaSolver ->
  save_debug_output self = true ->
  res r = Ok (Return true) ->
  submitted (events r) <> [] ->
  forall path, In path (files_to_clean self attempt) ->
    path ∉ disk (final r) \/ In path (failed_removals (events r)).

Definition body_ok : Prop :=
  ends_well /\ recognizes_once /\ Forall ok_text (submitted (events r)) /\
  keeps_files /\ tracks_disk /\ detects_first /\ rejects_short /\
  verifies /\ cleans_up.

End BodySpec.

(** The successive values of a counter that starts at [a] and goes up by
    one. *)
Definition counts_from (a : Z) (h : list Z) : Prop :=
  h = map (fun i => a + Z.of_nat i) (seq 0 (length h)).

(** What a run of the attempt loop from [a] guarantees: [b] is the returned
    value and [h] the values of [attempt] at the loop tests.  A run that
    returns [True] ends with a pass through the loop body that returned
    [True]. *)
Definition loop_ok (U : Unicode) {World : Type}
    (ext : forall T, extE T -> World -> answer T * World)
    (self : Solver) (max_attempts a : Z)
    (s : State World) (r : Run World (bool * list Z)) : Prop :=
  exists b h,
    res r = Ok (b, h) /\
    counts_from a h /\
    (if b then (length h <= Z.to_nat (max_attempts - a))%nat
     else length h = S (Z.to_nat (max_attempts - a)) /\
          removed (events r) = []) /\
    (length (List.filter is_recognition (events r))
       <= Z.to_nat (max_attempts - a))%nat /\
    Forall ok_text (submitted (events r)) /\
    disk (final r) = replay (events r) (disk s) /\
    (class self = PlaywrightCaptchaSolver -> removed (events r) = []) /\
    match events r with
    | e :: rest => input_absent e = true -> rest = [] /\ b = true /\ h = [a]
    | [] => b = false /\ h = [a]
    end /\
    (b = true ->
     exists a' s' before,
       last h = Some a' /\
       res (loop_body U ext self a' s') = Ok (Return true) /\
       events r = before ++ events (loop_body U ext self a' s') /\
       final r = final (loop_body U ext self a' s')).

(** The number of passes through the loop body: the loop tests that found
    [attempt < max_attempts]. *)
Definition passes (max_attempts : Z) (h : list Z) : nat :=
  length (List.filter (fun a => a <? max_attempts) h).

(** The first event of a log is a query that found the challenge input
    absent. *)
Definition first_query_absent (evs : list Event) : bool :=
  match evs with
  | e :: _ => input_absent e
  | [] => false
  end.

(** ** The manual wait

    A clock that behaves: reading the time and sleeping always return, the
    time read lies between the time before and the time after the reading,
    time does not go backwards, and a sleep lasts at least as long as
    asked. *)
Record WellClocked {World : Type}
    (ext : forall T, extE T -> World -> answer T * World)
    (now : World -> Q) : Prop := {
  time_reads : forall w, exists t w',
    ext Q Time w = (Returns t, w') /\ (now w <= t)%Q /\ (t <= now w')%Q;
  sleep_lasts : forall secs w, 0 <= secs -> exists w',
    ext unit (Sleep secs) w = (Returns tt, w') /\
    (now w + inject_Z secs <= now w')%Q;
  time_passes : forall T (c : extE T) w, (now w <= now (snd (ext T c w)))%Q
}.

(** The log of the wait loop started at [start], the number of its polls and
    its outcome.  Each round reads the clock and subtracts [start] from the
    reading, in floats.  When the difference is not below 120 the loop
    ends with [False].  Otherwise the challenge input is queried: when it is
    absent the loop ends with [True] (after deleting the screenshot taken
    for the developer, if any); when it is there, two seconds are slept and
    the next round begins. *)
Inductive polling (start : Q) : nat -> list Event -> bool -> Prop :=
  | polling_timeout (t : Q) :
      (120 <= float_sub t start)%Q ->
      polling start 0 [Ev Time (Returns t)] false
  | polling_gone (t : Q) (cleanup : list Event) :
      (float_sub t start < 120)%Q ->
      forallb is_removal cleanup = true ->
      polling start 1
        (Ev Time (Returns t) :: Ev (FindElement CaptchaInput) Raises :: cleanup)
        true
  | polling_present (t : Q) (n : nat) (rest : list Event) (b : bool) :
      (float_sub t start < 120)%Q ->
      polling start n rest b ->
      polling start (S n)
        (Ev Time (Returns t) :: Ev (FindElement CaptchaInput) (Returns tt)
           :: Ev (Sleep 2) (Returns tt) :: rest)
        b.

(** The log of the fallback of [solve_captcha_with_fallback]: with debug
    output a screenshot is taken first, and the fallback ends with [False] if
    taking it raises; then the clock is read and the wait loop runs. *)
Inductive fallback_log (self : Solver) : nat -> list Event -> bool -> Prop :=
  | fallback_no_screenshot :
      save_debug_output self = true ->
      fallback_log self 0
        [Ev (SaveScreenshot (manual_screenshot_path self)) Raises] false
  | fallback_waits (pre : list Event) (start : Q) (n : nat)
        (evs : list Event) (b : bool) :
      (if save_debug_output self
       then exists saved,
         pre = [Ev (SaveScreenshot (manual_screenshot_path self)) (Returns saved)]
       else pre = []) ->
      polling start n evs b ->
      fallback_log self n (pre ++ Ev Time (Returns start) :: evs) b.

(** ** Further readings of a log, for the properties of the single methods *)

(** The call raised. *)
Definition raised (e : Event) : bool := negb (returned e).

(** The content an HTTP download returned. *)
Definition downloaded (e : Event) : option bytes :=
  match e with
  | Ev c a =>
      match c in extE T return answer T -> option bytes with
      | RequestsGet _ => fun a => match a with Returns content => Some content | Raises => None end
      | _ => fun _ => None
      end a
  end.

(** The image the OpenCV pipeline returned. *)
Definition pipeline_output (e : Event) : option ndarray :=
  match e with
  | Ev c a =>
      match c in extE T return answer T -> option ndarray with
      | CvPipeline _ => fun a => match a with Returns image => Some image | Raises => None end
      | _ => fun _ => None
      end a
  end.

(** [query_selector] for the challenge image returned [None]. *)
Definition image_missing (e : Event) : bool :=
  match e with
  | Ev c a =>
      match c in extE T return answer T -> bool with
      | QuerySelector CaptchaImage =>
          fun a => match a with Returns false => true | _ => false end
      | _ => fun _ => false
      end a
  end.

(** A query for the challenge input, by either automation library. *)
Definition is_input_query (e : Event) : bool :=
  match e with
  | Ev c _ =>
      match c with
      | FindElement CaptchaInput => true
      | QuerySelector CaptchaInput => true
      | _ => false
      end
  end.

(** The last query for the challenge input in a log. *)
Definition last_input_query (evs : list Event) : option Event :=
  last (List.filter is_input_query evs).

(** A lookup of, or a click on, the link [Try different image]. *)
Definition asks_new_image (e : Event) : bool :=
  finds TryDifferentImageLink e || clicks TryDifferentImageLink e.

(** The creation of the output directory. *)
Definition is_makedirs (e : Event) : bool :=
  match e with
  | Ev c _ => match c with Makedirs _ => true | _ => false end
  end.

(** ** What [_download_captcha_image] and [_preprocess_image] hand back *)

(** The outcome of [_download_captcha_image]: never an exception.  [None]
    when a call raised ([or_missing]: or when the image was not found); a
    path only with debug output, and then the path of the raw download,
    which is on disk; a buffer only without debug output, holding the
    downloaded content, with the disk untouched. *)
Definition download_outcome {World : Type} (or_missing : bool) (self : Solver)
    (s : State World) (r : Run World (option ImageSrc)) : Prop :=
  match res r with
  | Ok None =>
      existsb raised (events r) = true \/
      (or_missing = true /\ existsb image_missing (events r) = true)
  | Ok (Some (ImgPath path)) =>
      save_debug_output self = true /\ path = temp_img_path self /\
      path ∈ disk (final r) /\ forallb returned (events r) = true
  | Ok (Some (ImgBuffer content)) =>
      save_debug_output self = false /\ disk (final r) = disk s /\
      omap downloaded (events r) = [content] /\
      forallb returned (events r) = true
  | _ => False
  end.

(** The outcome of [_preprocess_image]: never an exception.  [None] when a
    call raised; otherwise the image the pipeline returned. *)
Definition preprocess_outcome {World : Type} (r : Run World (option ndarray))
    : Prop :=
  match res r with
  | Ok None => existsb raised (events r) = true
  | Ok (Some image) =>
      omap pipeline_output (events r) = [image] /\
      forallb returned (events r) = true
  | _ => False
  end.

(** ** More of what one pass through the loop body guarantees *)

Section PassSpec.

Context (U : Unicode) {World : Type}.
Context (self : Solver) (attempt : Z) (r : Run World Step).

(** A pass returns [True] only when its last query for the challenge input
    found it absent. *)
Definition ends_on_absence : Prop :=
  res r = Ok (Return true) ->
  exists q, last_input_query (events r) = Some q /\ input_absent q = true.

(** A pass submits nothing, or exactly the text recognised in that pass. *)
Definition submits_reading : Prop :=
  submitted (events r) = [] \/
  exists text post,
    after_recognition U (events r) = Some (text, post) /\
    submitted (events r) = [text].

(** A pass of a solver with an engine that does not reach the engine neither
    submits nor asks for another image. *)
Definition idle_without_reading : Prop :=
  reader self <> None ->
  List.filter is_recognition (events r) = [] ->
  submitted (events r) = [] /\ List.filter asks_new_image (events r) = [].

(** A pass writes and deletes only the three files of its attempt, and
    without debug output nothing at all. *)
Definition own_files : Prop :=
  Forall (fun path => In path (files_to_clean self attempt)) (written (events r)) /\
  Forall (fun path => In path (files_to_clean self attempt)) (removed (events r)) /\
  (save_debug_output self = false ->
   written (events r) = [] /\ removed (events r) = []).

(** A pass downloads at most once. *)
Definition downloads_once : Prop :=
  (length (List.filter is_download (events r)) <= 1)%nat.

Definition pass_ok : Prop :=
  ends_on_absence /\ submits_reading /\ idle_without_reading /\
  own_files /\ downloads_once.

End PassSpec.

(** The texts the recognition engine's answers were turned into. *)
Definition reading (U : Unicode) (e : Event) : option pystr :=
  match e with
  | Ev c a =>
      match c in extE T return answer T -> option pystr with
      | Readtext _ _ => fun a => Some (recognized_text U a)
      | _ => fun _ => None
      end a
  end.

Definition readings (U : Unicode) (evs : list Event) : list pystr :=
  omap (reading U) evs.

(** What a run of the attempt loop guarantees about files, downloads,
    submissions and the last query. *)
Definition run_ok (U : Unicode) {World : Type} (self : Solver)
    (max_attempts a : Z) (r : Run World (bool * list Z)) : Prop :=
  forall b h, res r = Ok (b, h) ->
    Forall (fun path => exists a', In a' h /\ In path (files_to_clean self a'))
           (written (events r)) /\
    Forall (fun path => exists a', last h = Some a' /\
                                   In path (files_to_clean self a'))
           (removed (events r)) /\
    (save_debug_output self = false ->
     written (events r) = [] /\ removed (events r) = []) /\
    (length (List.filter is_download (events r))
       <= Z.to_nat (max_attempts - a))%nat /\
    Forall (fun text => In text (readings U (events r)))
           (submitted (events r)) /\
    (length (submitted (events r)) <= Z.to_nat (max_attempts - a))%nat /\
    (b = true ->
     exists q, last_input_query (events r) = Some q /\ input_absent q = true).

(** ** The calls of the manual wait

    Readings of the clock, polls of the challenge input, sleeps of two
    seconds and, with debug output, the screenshot taken for the developer
    and its deletion. *)
Inductive wait_event (self : Solver) : Event -> Prop :=
  | wait_time (a : answer Q) : wait_event self (Ev Time a)
  | wait_poll (a : answer unit) :
      wait_event self (Ev (FindElement CaptchaInput) a)
  | wait_sleep (a : answer unit) : wait_event self (Ev (Sleep 2) a)
  | wait_screenshot (a : answer bool) :
      save_debug_output self = true ->
      wait_event self (Ev (SaveScreenshot (manual_screenshot_path self)) a)
  | wait_removal (a : answer unit) :
      save_debug_output self = true ->
      wait_event self (Ev (Remove (manual_screenshot_path self)) a).

(** What ends the wait with [True]: a poll that found the challenge input
    absent, or a sleep that raised. *)
Definition ends_wait (e : Event) : bool :=
  input_absent e || (sleeps 2 e && raised e).

(** ** A scripted world

    A world given by a clock and the list of its next replies.  Sleeping
    advances the clock (a negative duration raises), reading the time shows
    it, and every other call takes the next reply; a reply of the wrong
    kind, or none left, makes the call raise. *)

Inductive Reply :=
  | Fails
  | Done
  | Yes
  | No
  | Fragments (texts : list pystr)
  | Src (url : option pystr)
  | Content (body : bytes)
  | Pixels (image : ndarray).

Record Script := mkScript { clock : Q; replies : list Reply }.

Definition as_unit (r : Reply) : answer unit :=
  match r with Done => Returns tt | _ => Raises end.

Definition as_bool (r : Reply) : answer bool :=
  match r with Yes => Returns true | No => Returns false | _ => Raises end.

Definition reply_to {T} (c : extE T) (r : Reply) : answer T :=
  match c in extE T return answer T with
  | Readtext _ _ => match r with Fragments l => Returns l | _ => Raises end
  | RequestsGet _ => match r with Content b => Returns b | _ => Raises end
  | CvPipeline _ => match r with Pixels a => Returns a | _ => Raises end
  | GetAttributeSrc => match r with Src u => Returns u | _ => Raises end
  | Imwrite _ _ => as_bool r
  | SaveScreenshot _ => as_bool r
  | QuerySelector _ => as_bool r
  | Time => Raises
  | Makedirs _ => as_unit r
  | WriteFile _ _ => as_unit r
  | Remove _ => as_unit r
  | EasyocrReader _ => as_unit r
  | Sleep _ => as_unit r
  | FindElement _ => as_unit r
  | Clear => as_unit r
  | SendKeys _ => as_unit r
  | Click _ => as_unit r
  | Fill _ => as_unit r
  | AwaitNavigation => as_unit r
  | WaitForTimeout _ => as_unit r
  | Screenshot _ => as_unit r
  end.

Definition scripted (T : Type) (c : extE T) (w : Script) : answer T * Script :=
  match c in extE T return answer T * Script with
  | Time => (Returns (clock w), w)
  | Sleep secs =>
      if secs <? 0 then (Raises, w)
      else (Returns tt, mkScript (clock w + inject_Z secs) (replies w))
  | c' =>
      match replies w with
      | [] => (Raises, w)
      | r :: rest => (reply_to c' r, mkScript (clock w) rest)
      end
  end.

(** A machine on which every sleep is interrupted, in front of a page that
    keeps the challenge and shows no image: the lookups of the challenge
    input and the readings of the clock return, every other call raises. *)
Definition interrupted (T : Type) (c : extE T) (w : unit) : answer T * unit :=
  match c in extE T return answer T * unit with
  | Time => (Returns 0%Q, w)
  | FindElement CaptchaInput => (Returns tt, w)
  | _ => (Raises, w)
  end.

(** *** Solvers and pages used as examples *)

Definition amazon_solver : Solver :=
  mkSolver AmazonCaptchaSolver (py "captcha_failures") false (Some tt).

Definition amazon_debug_solver : Solver :=
  mkSolver AmazonCaptchaSolver (py "captcha_output") true (Some tt).

Definition amazon_without_engine : Solver :=
  mkSolver AmazonCaptchaSolver (py "captcha_failures") false None.

Definition selenium_solver : Solver :=
  mkSolver SeleniumCaptchaSolver (py "captcha_failures") false (Some tt).


Definition image_url : option pystr :=
  Some (py "https://images-na.ssl-images-amazon.com/captcha/abc/Captcha_x.jpg").

(** A page without the challenge: every lookup raises. *)
Definition no_challenge : State Script := mkState (mkScript 0 []) ∅.

(** A Selenium page on which one attempt goes through: the input, the image
    and its download, the pipeline, the engine reading [texts], the typing,
    the button and the click. *)
Definition attempt_replies (texts : list pystr) : list Reply :=
  [ Done; Done; Src image_url; Content [137; 80; 78; 71]%N;
    Pixels [[255; 0]; [0; 255]]%N; Fragments texts;
    Done; Done; Done; Done ].

(** The same with debug output: the download is written, a screenshot is
    taken and the processed image saved. *)
Definition debug_attempt_replies (texts : list pystr) : list Reply :=
  [ Done; Done; Src image_url; Content [137; 80; 78; 71]%N; Done; Yes;
    Pixels [[255; 0]; [0; 255]]%N; Yes; Fragments texts;
    Done; Done; Done; Done ].

(** The engine reads ABCD and the challenge is gone after the submission. *)
Definition solved_at_once : State Script :=
  mkState (mkScript 0 (attempt_replies [py "abcd"])) ∅.

(** The engine reads only two characters; the link for another image is
    there. *)
Definition short_reading : State Script :=
  mkState (mkScript 0 [ Done; Done; Src image_url; Content [137; 80; 78; 71]%N;
                        Pixels [[255; 0]; [0; 255]]%N; Fragments [py "ab"];
                        Done; Done ]) ∅.

(** With debug output: a first attempt is rejected by the page, the second
    one passes and the deletions go through. *)
Definition solved_at_second_try : State Script :=
  mkState (mkScript 0 (debug_attempt_replies [py "abcd"] ++ [Done; Done; Done]
                       ++ debug_attempt_replies [py "wxyz"]
                       ++ [Fails; Done; Done; Done])) ∅.

(** With debug output: the one attempt is rejected by the page. *)
Definition rejected_once : State Script :=
  mkState (mkScript 0 (debug_attempt_replies [py "abcd"] ++ [Done; Done; Done])) ∅.



(** A page that keeps the challenge and has no image to download. *)
Definition no_image : State Script := mkState (mkScript 0 [Done]) ∅.

(** The rows of the Unicode character database for U+00C9, U+00E9, U+01F0
    and U+030C: the letters E and e with acute are alphanumeric and the
    second upper-cases to the first; the letter j with caron is alphanumeric
    and upper-cases to J followed by the combining caron U+030C, which is
    not alphanumeric.  The other rows are left blank. *)
Definition unicode_excerpt : Unicode := {|
  uni_isalnum c := ((c =? 201) || (c =? 233) || (c =? 496))%N;
  uni_upper c := if (c =? 233)%N then [201%N]
                 else if (c =? 496)%N then [74%N; 780%N]
                 else [c];
  uni_isspace c := false
|}.

(** * Properties *)

(** ** The text corrector *)

Ltac char_cases :=
  unfold canonical, is_upper_alnum, is_digit_0158, substitute, subst1,
         ascii_isalnum, ascii_upper, ascii_isspace, is_ascii, between in *;
  repeat match goal with
  | |- context [N.leb ?a ?b] => destruct (N.leb_spec a b)
  | |- context [N.ltb ?a ?b] => destruct (N.ltb_spec a b)
  | |- context [N.eqb ?a ?b] => destruct (N.eqb_spec a b)
  | H : context [N.leb ?a ?b] |- _ => destruct (N.leb_spec a b)
  | H : context [N.ltb ?a ?b] |- _ => destruct (N.ltb_spec a b)
  | H : context [N.eqb ?a ?b] |- _ => destruct (N.eqb_spec a b)
  end; simpl in *; try congruence; try lia.

Section TextProperties.

Context (U : Unicode).

(** [str.replace] with one-character strings maps over the characters. *)
Lemma replace_char (old new : codepoint) (s : pystr) :
  replace [old] [new] s = map (subst1 old new) s.
Proof.
  unfold replace. induction s as [|c s IH]; [reflexivity|].
  cbn [replace_from startswith length map]. unfold subst1 at 1.
  destruct (old =? c)%N; cbn; rewrite IH; reflexivity.
Qed.

Lemma fix_common_errors_map (text : pystr) :
  _fix_common_errors U text
  = map substitute (upper U (List.filter (isalnum U) text)).
Proof.
  unfold _fix_common_errors, replacements.
  change (py "0") with [48%N]. change (py "O") with [79%N].
  change (py "1") with [49%N]. change (py "I") with [73%N].
  change (py "5") with [53%N]. change (py "S") with [83%N].
  change (py "8") with [56%N]. change (py "B") with [66%N].
  cbn [fold_left]. rewrite !replace_char, !map_map. reflexivity.
Qed.

(** The source function computes what the specification describes. *)
Lemma fix_common_errors_reference (text : pystr) :
  _fix_common_errors U text = reference_correct U text.
Proof.
  rewrite fix_common_errors_map. unfold reference_correct, substitution_table.
  cbn [fold_left]. rewrite !map_map. reflexivity.
Qed.

Lemma substitute_not_0158 (c : codepoint) : is_digit_0158 (substitute c) = false.
Proof. char_cases. Qed.

(** Whatever the input, the output has none of the digits 0, 1, 5, 8. *)
Lemma fix_common_errors_no_0158 (text : pystr) :
  Forall (fun c => is_digit_0158 c = false) (_fix_common_errors U text).
Proof.
  rewrite fix_common_errors_map. apply Forall_forall. intros c Hc.
  apply list_elem_of_In, in_map_iff in Hc. destruct Hc as (c0 & <- & _).
  apply substitute_not_0158.
Qed.

Lemma upper_filter_ascii (s : pystr) :
  Forall (fun c => is_ascii c = true) s ->
  upper U (List.filter (isalnum U) s)
  = map ascii_upper (List.filter ascii_isalnum s).
Proof.
  induction 1 as [|c s Hc _ IH]; [reflexivity|].
  cbn [List.filter]. unfold isalnum at 1. rewrite Hc.
  destruct (ascii_isalnum c); [|exact IH].
  cbn [map upper flat_map]. unfold upper_cp at 1. rewrite Hc.
  cbn. f_equal. exact IH.
Qed.

Lemma fix_common_errors_ascii (s : pystr) :
  Forall (fun c => is_ascii c = true) s ->
  _fix_common_errors U s
  = map (fun c => substitute (ascii_upper c)) (List.filter ascii_isalnum s).
Proof.
  intros H. rewrite fix_common_errors_map, upper_filter_ascii by exact H.
  apply map_map.
Qed.

(** A property of ASCII characters can be checked on the 128 of them. *)
Lemma ascii_forall (P : codepoint -> bool) :
  forallb P (map N.of_nat (seq 0 128)) = true ->
  forall c, is_ascii c = true -> P c = true.
Proof.
  intros H c Hc. rewrite forallb_forall in H. apply H.
  apply in_map_iff. exists (N.to_nat c). split; [apply N2Nat.id|].
  apply in_seq. unfold is_ascii in Hc. apply N.ltb_lt in Hc. lia.
Qed.

Lemma substitute_upper_canonical (c : codepoint) :
  is_ascii c = true -> ascii_isalnum c = true ->
  canonical (substitute (ascii_upper c)) = true.
Proof.
  intros Hc Ha.
  pose proof (ascii_forall
    (fun c => negb (ascii_isalnum c) || canonical (substitute (ascii_upper c)))
    eq_refl c Hc) as H.
  cbv beta in H. rewrite Ha in H. exact H.
Qed.

Lemma canonical_ascii (c : codepoint) : canonical c = true -> is_ascii c = true.
Proof.
  unfold canonical, is_upper_alnum, between, is_ascii. intros H.
  apply N.ltb_lt.
  destruct (N.leb_spec c 90), (N.leb_spec c 57); lia.
Qed.

Lemma canonical_stable (c : codepoint) :
  canonical c = true ->
  is_ascii c = true /\ ascii_isalnum c = true /\
  ascii_upper c = c /\ substitute c = c.
Proof.
  intros Hcan. pose proof (canonical_ascii c Hcan) as Hc.
  pose proof (ascii_forall
    (fun c => negb (canonical c) ||
              (ascii_isalnum c && (ascii_upper c =? c)%N && (substitute c =? c)%N))
    eq_refl c Hc) as H.
  cbv beta in H. rewrite Hcan in H. cbn [negb orb] in H.
  apply andb_true_iff in H as [H H3]. apply andb_true_iff in H as [H1 H2].
  apply N.eqb_eq in H2, H3. auto.
Qed.

(** On ASCII input the output is made of upper-case letters and of the
    digits the table leaves alone. *)
Lemma fix_common_errors_canonical (s : pystr) :
  Forall (fun c => is_ascii c = true) s ->
  Forall (fun c => canonical c = true) (_fix_common_errors U s).
Proof.
  intros H. rewrite fix_common_errors_ascii by exact H.
  induction H as [|c s Hc _ IH]; [constructor|].
  cbn [List.filter]. destruct (ascii_isalnum c) eqn:Ha; [|exact IH].
  constructor; [apply substitute_upper_canonical; assumption | exact IH].
Qed.

(** Such a string is a fixed point of the corrector. *)
Lemma fix_common_errors_fixed (t : pystr) :
  Forall (fun c => canonical c = true) t -> _fix_common_errors U t = t.
Proof.
  intros H. rewrite fix_common_errors_ascii.
  - induction H as [|c t Hc _ IH]; [reflexivity|].
    destruct (canonical_stable c Hc) as (_ & Ha & Hu & Hs).
    cbn [List.filter]. rewrite Ha. cbn [map]. rewrite Hu, Hs, IH. reflexivity.
  - eapply Forall_impl; [exact H|]. intros c Hc. apply (canonical_stable c Hc).
Qed.

End TextProperties.

(** ** One pass through the loop body

    The body is run symbolically: every external call is split into its
    possible answers, which leaves one goal per path through the body, each
    with a fully known log of events. *)

Ltac norm :=
  cbv beta iota zeta delta
      [bind try_except call ret raise out_of_fuel when for_each path_exists
       loop_body attempt_body pw_attempt_body
       _download_captcha_image pw_download_captcha_image download_from_element
       _preprocess_image _recognize_captcha _cleanup_files files_to_clean
       self_cleanup_files _try_different_image pw_try_different_image
       world disk app res events final
       class save_debug_output reader output_dir].

Tactic Notation "read_log" "in" hyp(H) :=
  cbn [submitted removed written omap list_omap submitted_text removed_path
       written_path List.filter is_recognition is_download input_absent
       returned finds clicks sleeps Locator_eqb replay
       fold_left disk_effect length app mbind option_bind after_recognition
       after_submission is_new_image_request forallb is_removal
       failed_removals remove_raised files_to_clean class save_debug_output
       andb negb orb recognized_text Z.eqb Pos.eqb] in H.

Ltac read_log :=
  cbn [submitted removed written omap list_omap submitted_text removed_path
       written_path List.filter is_recognition is_download input_absent
       returned finds clicks sleeps Locator_eqb replay
       fold_left disk_effect length app mbind option_bind after_recognition
       after_submission is_new_image_request forallb is_removal
       failed_removals remove_raised files_to_clean class save_debug_output
       andb negb orb recognized_text Z.eqb Pos.eqb].

Section BodyProperties.

Context (U : Unicode) {World : Type}.
Context (ext : forall T, extE T -> World -> answer T * World).

Ltac exec_step :=
  match goal with
  | |- context [ext ?T ?c ?w] =>
      let a := fresh "a" in let w' := fresh "w" in
      destruct (ext T c w) as [[a|] w'] eqn:?
  | |- context [if negb ?b then _ else _] => destruct b eqn:?; cbn [negb]
  | |- context [if ?b then _ else _] => destruct b eqn:?
  | |- context [match ?x with Some _ => _ | None => _ end] => destruct x eqn:?
  end; norm.

Ltac exec := norm; cbn [negb andb]; repeat exec_step.

Ltac solve_short :=
  intros _ text post Hrec Hlen;
  read_log in Hrec;
  first
  [ discriminate Hrec
  | injection Hrec as <- <-;
    first
    [ exfalso; cbn [recognized_text] in Hlen; lia
    | repeat split; reflexivity ] ].

Ltac solve_verify :=
  intros _ q post Hsub;
  first
  [ discriminate Hsub
  | injection Hsub as <- <-; read_log;
    repeat split; intros; first [reflexivity | discriminate] ].

Ltac solve_cleanup :=
  intros _ _ Hres Hsub path Hin;
  first
  [ discriminate Hres
  | exfalso; apply Hsub; reflexivity
  | cbn [In] in Hin; destruct Hin as [<-|[<-|[<-|[]]]];
    first
    [ right; cbn [In]; solve [auto 6]
    | left;
      repeat match goal with
      | H : bool_decide _ = false |- _ => apply bool_decide_eq_false in H
      | H : bool_decide _ = true |- _ => apply bool_decide_eq_true in H
      end;
      repeat match goal with a : bool |- _ => destruct a end;
      set_solver ] ].

Lemma loop_body_ok (self : Solver) (attempt : Z) (s : State World) :
  body_ok U self attempt s (loop_body U ext self attempt s).
Proof.
  destruct self as [c dir dbg rd]. destruct s as [w d].
  remember (loop_body U ext _ attempt _) as r eqn:Hr. revert Hr.
  destruct c, dbg, rd as [[]|].
  all: exec.
  all: intros ->.
  all: unfold body_ok, ends_well, recognizes_once, keeps_files, tracks_disk,
         detects_first, rejects_short, verifies, cleans_up.
  all: cbn [res events final disk].
  all: try match goal with
       | H : (len (py "") <? 4) = false |- _ => vm_compute in H; discriminate H
       end.
  all: read_log.
  all: repeat match goal with |- _ /\ _ => split end.
  all: try solve [auto | discriminate | lia].
  all: try solve [intros Habs; try discriminate Habs; split; reflexivity].
  all: try solve [constructor;
                  [split; [lia | apply fix_common_errors_no_0158] | constructor]].
  all: try solve [intros Hc; exfalso; apply Hc; reflexivity].
  all: try solve [solve_short].
  all: try solve [solve_verify].
  all: solve_cleanup.
Qed.

End BodyProperties.

(** ** The attempt loop *)

Lemma replay_app (evs evs' : list Event) (d : Disk) :
  replay (evs ++ evs') d = replay evs' (replay evs d).
Proof. unfold replay. apply fold_left_app. Qed.

Lemma submitted_app (evs evs' : list Event) :
  submitted (evs ++ evs') = submitted evs ++ submitted evs'.
Proof. apply omap_app. Qed.

Lemma removed_app (evs evs' : list Event) :
  removed (evs ++ evs') = removed evs ++ removed evs'.
Proof. apply omap_app. Qed.

Lemma written_app (evs evs' : list Event) :
  written (evs ++ evs') = written evs ++ written evs'.
Proof. apply omap_app. Qed.

Lemma counts_from_cons (a : Z) (h : list Z) :
  counts_from (a + 1) h -> counts_from a (a :: h).
Proof.
  unfold counts_from. intros H. cbn [length seq map].
  f_equal; [lia|]. rewrite <- seq_shift, map_map. rewrite H at 1.
  apply map_ext. intros i. lia.
Qed.

Lemma counts_from_one (a : Z) : counts_from a [a].
Proof. unfold counts_from. cbn. f_equal. lia. Qed.

Section LoopProperties.

Context (U : Unicode) {World : Type}.
Context (ext : forall T, extE T -> World -> answer T * World).

(** With fuel for one loop test more than the attempts left, the loop
    returns, and what each pass guarantees adds up. *)
Lemma attempt_loop_ok (self : Solver) (max_attempts : Z) (fuel : nat) :
  forall a s, (Z.to_nat (max_attempts - a) < fuel)%nat ->
  loop_ok U ext self max_attempts a s
          (attempt_loop U ext self max_attempts fuel a s).
Proof.
  induction fuel as [|fuel IH]; intros a s Hfuel; [lia|].
  cbn [attempt_loop]. destruct (a <? max_attempts) eqn:Hlt.
  2: { apply Z.ltb_ge in Hlt. exists false, [a]. cbn.
       replace (Z.to_nat (max_attempts - a)) with 0%nat by lia.
       repeat split; auto using counts_from_one. discriminate. }
  apply Z.ltb_lt in Hlt.
  pose proof (loop_body_ok U ext self a s) as Hb.
  unfold bind. revert Hb.
  destruct (loop_body U ext self a s) as [rb evb sb] eqn:Hbody. intros Hb.
  destruct Hb as (Hend & Hrec & Hsub & [Hkeep Hpw] & Hdisk & Hfirst & _).
  unfold ends_well, recognizes_once, tracks_disk, detects_first in *.
  cbn [res events final] in *.
  destruct Hend as [-> | ->].
  - specialize (IH (a + 1) sb ltac:(lia)). revert IH.
    destruct (attempt_loop U ext self max_attempts fuel (a + 1) sb)
      as [r' evs' s'].
    intros (b & h & Hr & Hcnt & Hb & Hrec' & Hsub' & Hdisk' & Hpw' & _ & Hlast).
    cbn [res events final] in *. subst r'. cbn [ret fst snd].
    exists b, (a :: h). cbn [res events final]. rewrite app_nil_r.
    rewrite submitted_app, removed_app, replay_app, List.filter_app, length_app.
    replace (Z.to_nat (max_attempts - a))
      with (S (Z.to_nat (max_attempts - (a + 1)))) by lia.
    split; [reflexivity|]. split; [apply counts_from_cons, Hcnt|].
    split. { destruct b; cbn [length]; [lia|]. destruct Hb as [-> ->].
             rewrite Hkeep by reflexivity. auto. }
    split; [lia|]. split; [apply Forall_app; auto|].
    split; [congruence|].
    split. { intros Hc. rewrite Hpw, Hpw' by exact Hc. reflexivity. }
    split.
    { destruct evb as [|e rest]; [contradiction|]. cbn [app].
      intros Habs. destruct (Hfirst Habs) as [_ Hcontra]. discriminate Hcontra. }
    intros Htrue.
    destruct (Hlast Htrue) as (a' & s'' & before & Hl & Hret & Hevs & Hfin).
    exists a', s'', (evb ++ before).
    split. { destruct h as [|a0 h]; [discriminate Hl | exact Hl]. }
    split; [exact Hret|]. split; [|exact Hfin].
    rewrite Hevs. apply app_assoc.
  - cbn [ret]. exists true, [a]. cbn [res events final]. rewrite !app_nil_r.
    split; [reflexivity|]. split; [apply counts_from_one|].
    split; [cbn; lia|]. split; [lia|]. split; [exact Hsub|].
    split; [exact Hdisk|]. split; [exact Hpw|].
    split.
    { destruct evb as [|e rest]; [contradiction|].
      intros Habs. destruct (Hfirst Habs) as [-> _]. auto. }
    intros _. exists a, s, []. rewrite Hbody. auto.
Qed.

End LoopProperties.

(** ** Whole runs of [solve_captcha] *)

Section RunProperties.

Context (U : Unicode) {World : Type}.
Context (ext : forall T, extE T -> World -> answer T * World).

Lemma solve_captcha_run_ok (self : Solver) (max_attempts : Z) (s : State World) :
  match reader self with
  | None => solve_captcha_run U ext self max_attempts s = mkRun (Ok (false, [])) [] s
  | Some _ => loop_ok U ext self max_attempts 0 s
                      (solve_captcha_run U ext self max_attempts s)
  end.
Proof.
  unfold solve_captcha_run. destruct (reader self); [|reflexivity].
  apply attempt_loop_ok. lia.
Qed.

(** [solve_captcha] returns the value of the run, with the same log and the same final state *)
Lemma solve_captcha_of_run (self : Solver) (max_attempts : Z) (s : State World) b h :
  res (solve_captcha_run U ext self max_attempts s) = Ok (b, h) ->
  solve_captcha U ext self max_attempts s
  = mkRun (Ok b) (events (solve_captcha_run U ext self max_attempts s))
          (final (solve_captcha_run U ext self max_attempts s)).
Proof.
  unfold solve_captcha, bind.
  destruct (solve_captcha_run U ext self max_attempts s) as [r evs s'].
  cbn [res events final]. intros ->. cbn [ret fst]. rewrite app_nil_r. reflexivity.
Qed.

Lemma solve_captcha_run_returns (self : Solver) (max_attempts : Z) (s : State World) :
  exists b h, res (solve_captcha_run U ext self max_attempts s) = Ok (b, h).
Proof.
  pose proof (solve_captcha_run_ok self max_attempts s) as H.
  destruct (reader self).
  - destruct H as (b & h & Hr & _). eauto.
  - rewrite H. eauto.
Qed.

(** More fuel does not change a loop that returned. *)
Lemma attempt_loop_fuel (self : Solver) (max_attempts : Z) (fuel : nat) :
  forall a s x,
    res (attempt_loop U ext self max_attempts fuel a s) = Ok x ->
    forall fuel', (fuel <= fuel')%nat ->
      attempt_loop U ext self max_attempts fuel' a s
      = attempt_loop U ext self max_attempts fuel a s.
Proof.
  induction fuel as [|fuel IH]; intros a s x Hres fuel' Hle; [discriminate|].
  destruct fuel' as [|fuel']; [lia|].
  revert Hres. cbn [attempt_loop].
  destruct (a <? max_attempts); [|reflexivity].
  unfold bind.
  destruct (loop_body U ext self a s) as [[[v|a']|e|] evb sb]; try reflexivity.
  intros Hres.
  destruct (attempt_loop U ext self max_attempts fuel a' sb)
    as [[y|e|] evs' s'] eqn:Hrest; try discriminate Hres.
  rewrite (IH a' sb y) by (rewrite ?Hrest; auto; lia).
  rewrite Hrest. reflexivity.
Qed.

(** A loop that returns [True] is the loop stopped before its last pass,
    which returns [False] with the same history, followed by that pass. *)
Lemma attempt_loop_split (self : Solver) (max_attempts : Z) (fuel : nat) :
  forall a s h,
    res (attempt_loop U ext self max_attempts fuel a s) = Ok (true, h) ->
    exists attempt,
      last h = Some attempt /\ a <= attempt < max_attempts /\
      let before := attempt_loop U ext self attempt fuel a s in
      let pass := loop_body U ext self attempt (final before) in
      res before = Ok (false, h) /\
      res pass = Ok (Return true) /\
      events (attempt_loop U ext self max_attempts fuel a s)
      = events before ++ events pass /\
      final (attempt_loop U ext self max_attempts fuel a s) = final pass.
Proof.
  induction fuel as [|fuel IH]; intros a s h; [discriminate|].
  remember (attempt_loop U ext self max_attempts (S fuel) a s) as r eqn:Hr.
  revert Hr. cbn [attempt_loop].
  destruct (a <? max_attempts) eqn:Hlt; [|intros ->; discriminate].
  apply Z.ltb_lt in Hlt.
  destruct (loop_body_ok U ext self a s) as (Hend & _).
  unfold ends_well in Hend. unfold bind.
  destruct (loop_body U ext self a s) as [rb evb sb] eqn:Hbody.
  cbn [res] in Hend. destruct Hend as [-> | ->].
  - specialize (IH (a + 1) sb).
    destruct (attempt_loop U ext self max_attempts fuel (a + 1) sb)
      as [[[b' h']|e|] evs' s'] eqn:Hrest; cbn [ret res events final fst snd];
      intros ->; cbn [res events final]; try discriminate.
    intros [= -> <-].
    destruct (IH h' eq_refl) as (attempt & Hl & Hrange & Hb & Hp & Hevs & Hfin).
    cbn [res events final] in Hevs, Hfin.
    exists attempt. split; [destruct h'; [discriminate Hl | exact Hl]|].
    split; [lia|]. cbv zeta.
    cbn [attempt_loop]. destruct (Z.ltb_spec a attempt) as [_|Hge]; [|lia].
    unfold bind. rewrite Hbody.
    revert Hb Hp Hevs Hfin.
    destruct (attempt_loop U ext self attempt fuel (a + 1) sb)
      as [rb0 evs0 s0]. cbn [ret res events final fst snd].
    intros -> Hp -> ->. cbn [ret res events final fst snd].
    rewrite !app_nil_r, app_assoc. auto.
  - cbn [ret res events final]. intros ->. cbn [res events final].
    intros [= <-].
    exists a. split; [reflexivity|]. split; [lia|]. cbv zeta.
    cbn [attempt_loop]. rewrite Z.ltb_irrefl. cbn [ret res events final].
    rewrite Hbody. cbn [res events final]. rewrite app_nil_r. auto.
Qed.

(** The same for a run of [solve_captcha]: the run limited to [attempt]
    attempts, then the pass of attempt [attempt]. *)
Lemma solve_captcha_run_split (self : Solver) (max_attempts : Z)
    (s : State World) (h : list Z) :
  res (solve_captcha_run U ext self max_attempts s) = Ok (true, h) ->
  exists attempt,
    last h = Some attempt /\ 0 <= attempt < max_attempts /\
    let before := solve_captcha_run U ext self attempt s in
    let pass := loop_body U ext self attempt (final before) in
    res before = Ok (false, h) /\
    res pass = Ok (Return true) /\
    events (solve_captcha_run U ext self max_attempts s)
    = events before ++ events pass /\
    final (solve_captcha_run U ext self max_attempts s) = final pass.
Proof.
  intros Hres.
  assert (reader self <> None) as Hreader.
  { intros Hn. revert Hres. unfold solve_captcha_run. rewrite Hn. discriminate. }
  assert (forall attempt, attempt < max_attempts ->
            attempt_loop U ext self attempt (S (Z.to_nat max_attempts)) 0 s
            = solve_captcha_run U ext self attempt s) as Hfuel.
  { intros attempt Hlt.
    destruct (solve_captcha_run_returns self attempt s) as (b & h0 & Hr).
    revert Hr. unfold solve_captcha_run.
    destruct (reader self); [|contradiction]. intros Hr.
    apply (attempt_loop_fuel self attempt _ 0 s (b, h0) Hr). lia. }
  assert (solve_captcha_run U ext self max_attempts s
          = attempt_loop U ext self max_attempts (S (Z.to_nat max_attempts)) 0 s)
    as Hrun.
  { unfold solve_captcha_run. destruct (reader self); [reflexivity|contradiction]. }
  rewrite Hrun in Hres |- *.
  destruct (attempt_loop_split self max_attempts _ 0 s h Hres)
    as (attempt & Hl & Hrange & Hsplit).
  exists attempt. split; [exact Hl|]. split; [exact Hrange|].
  rewrite <- (Hfuel attempt) by lia. exact Hsplit.
Qed.

End RunProperties.

(** ** Python floats *)

Lemma floor_log2_le (x : Q) : (0 < x)%Q -> (2 ^ floor_log2 x <= x)%Q.
Proof.
  destruct x as [n d]. intros Hx. unfold floor_log2.
  change (Qnum (n # d)) with n. change (Qden (n # d)) with d.
  assert (0 < n) as Hn by (unfold Qlt in Hx; simpl in Hx; lia).
  pose proof (Z.log2_spec n Hn) as [Hlo _].
  pose proof (Z.log2_spec (Z.pos d) ltac:(lia)) as [_ Hhi].
  pose proof (Z.log2_nonneg n) as Ha.
  pose proof (Z.log2_nonneg (Z.pos d)) as Hb.
  set (a := Z.log2 n) in *. set (b := Z.log2 (Z.pos d)) in *.
  destruct (Qle_bool (2 ^ (a - b)) (n # d)) eqn:Ht; [apply Qle_bool_iff, Ht|].
  clear Ht.
  replace (a - b - 1) with (a - Z.succ b) by lia.
  rewrite Qpower_minus by discriminate.
  rewrite <- !(Zpower_Qpower 2) by lia.
  assert (0 < 2 ^ Z.succ b) as Hp by (apply Z.pow_pos_nonneg; lia).
  apply Qle_shift_div_r;
    [change 0%Q with (inject_Z 0); rewrite <- Zlt_Qlt; exact Hp|].
  unfold Qle, Qmult, inject_Z. simpl. rewrite !Z.mul_1_r.
  apply Z.mul_le_mono_nonneg; try lia.
Qed.

Lemma round_half_even_ge (N : Z) (m : Q) :
  (inject_Z N <= m)%Q -> N <= round_half_even m.
Proof.
  intros H. apply Qfloor_resp_le in H. rewrite Qfloor_Z in H.
  unfold round_half_even.
  destruct (m - inject_Z (Qfloor m) ?= 1 # 2)%Q; [destruct (Z.even _)| |]; lia.
Qed.

Lemma on_fine_grid (q : Z) :
  q <= 0 -> (inject_Z (120 * 2 ^ (- q)) * 2 ^ q == 120)%Q.
Proof.
  intros Hq. rewrite inject_Z_mult, Zpower_Qpower by lia.
  rewrite Qpower_opp.
  assert (0 < inject_Z 2 ^ q)%Q as HP by (apply Qpower_0_lt; reflexivity).
  change (2 ^ q)%Q with (inject_Z 2 ^ q)%Q.
  revert HP. generalize (inject_Z 2 ^ q)%Q. intros P HP. field.
  apply Qnot_eq_sym, Qlt_not_eq. exact HP.
Qed.

(** Rounding never takes a number that is at least 120 below 120: 120 is a
    float, and rounding keeps the order. *)
Lemma round_binary64_ge_120 (x : Q) :
  (120 <= x)%Q -> (120 <= round_binary64 x)%Q.
Proof.
  intros Hx.
  assert (0 < x)%Q as Hpos by lra.
  unfold round_binary64. rewrite (proj1 (Qgt_alt x 0) Hpos).
  unfold round_positive.
  pose proof (floor_log2_le x Hpos) as Hlog.
  set (e := floor_log2 x) in *.
  set (q := Z.max (e - 52) (-1074)).
  assert (0 < 2 ^ q)%Q as HP by (apply Qpower_0_lt; reflexivity).
  set (P := (2 ^ q)%Q) in *.
  destruct (Z.le_gt_cases q 0) as [Hq|Hq].
  - (* the grid is finer than the integers: 120 lies on it *)
    assert (inject_Z (120 * 2 ^ (- q)) * P == 120)%Q as HN.
    { apply on_fine_grid. exact Hq. }
    rewrite <- HN.
    apply Qmult_le_compat_r; [|apply Qlt_le_weak, HP].
    rewrite <- Zle_Qle. apply round_half_even_ge.
    apply Qle_shift_div_l; [exact HP|]. rewrite HN. exact Hx.
  - (* the grid is coarser: the mantissa is at least 2^52 *)
    assert (q = e - 52) as Hqe by lia.
    assert (inject_Z (2 ^ 52) * P == 2 ^ e)%Q as HN.
    { rewrite (Zpower_Qpower 2 52) by lia. unfold P.
      rewrite <- Qpower_plus by discriminate. rewrite Hqe.
      replace (52 + (e - 52)) with e by lia. reflexivity. }
    assert (inject_Z (2 ^ 52) <= inject_Z (round_half_even (x / P)))%Q as Hk.
    { rewrite <- Zle_Qle. apply round_half_even_ge.
      apply Qle_shift_div_l; [exact HP|]. rewrite HN. exact Hlog. }
    assert (1 <= P)%Q as HP1.
    { unfold P. apply (Qpower_1_le 2 q); [discriminate|lia]. }
    apply Qle_trans with (inject_Z (2 ^ 52) * 1)%Q; [vm_compute; discriminate|].
    apply Qle_trans with (inject_Z (2 ^ 52) * P)%Q.
    + apply Qmult_le_l; [reflexivity | exact HP1].
    + apply Qmult_le_compat_r; [exact Hk | apply Qlt_le_weak, HP].
Qed.

Lemma float_sub_below (t start : Q) :
  (float_sub t start < 120)%Q -> (t - start < 120)%Q.
Proof.
  intros H. apply Qnot_le_lt. intros Hge.
  apply round_binary64_ge_120 in Hge. unfold float_sub in H.
  exact (Qlt_not_le _ _ H Hge).
Qed.

(** The model against CPython: [120.1 - 0.1] is exactly [120.0] although
    the difference of the two floats as rational numbers is below 120;
    [0.3 - 0.1] is [0.19999999999999998]; [1.0 - 2**-53] is a float and
    [1.0 - 2**-54] rounds to [1.0]; the difference of the two smallest
    subnormal floats is exact. *)
Lemma float_sub_examples :
  (float_sub (4225643087868723 # 35184372088832)
             (3602879701896397 # 36028797018963968) == 120)%Q /\
  ((4225643087868723 # 35184372088832)
   - (3602879701896397 # 36028797018963968) < 120)%Q /\
  (float_sub (5404319552844595 # 18014398509481984)
             (3602879701896397 # 36028797018963968)
   == 7205759403792793 # 36028797018963968)%Q /\
  (float_sub 1 (1 # 9007199254740992)
   == 9007199254740991 # 9007199254740992)%Q /\
  (float_sub 1 (1 # 18014398509481984) == 1)%Q /\
  (float_sub (Qpower 2 (-1073)) (Qpower 2 (-1074)) == Qpower 2 (-1074))%Q.
Proof. repeat split; vm_compute; reflexivity. Qed.

(** ** The manual wait *)

Section WaitProperties.

Context (U : Unicode) {World : Type}.
Context (ext : forall T, extE T -> World -> answer T * World).
Context (now : World -> Q) (clocked : WellClocked ext now).

Lemma elapsed_polls (a b : Q) (j : nat) :
  (a + inject_Z (2 * Z.of_nat j) <= b)%Q -> (b - a < 120)%Q -> (j < 60)%nat.
Proof.
  intros H1 H2.
  assert (inject_Z (2 * Z.of_nat j) < inject_Z 120)%Q as H
    by (change (inject_Z 120) with 120%Q; lra).
  rewrite <- Zlt_Qlt in H. lia.
Qed.

Lemma elapsed_next (a b c : Q) (j : nat) :
  (a + inject_Z (2 * Z.of_nat j) <= b)%Q -> (b + inject_Z 2 <= c)%Q ->
  (a + inject_Z (2 * Z.of_nat (S j)) <= c)%Q.
Proof.
  intros H1 H2. replace (2 * Z.of_nat (S j)) with (2 * Z.of_nat j + 2) by lia.
  rewrite inject_Z_plus. lra.
Qed.

Ltac wnorm :=
  cbv beta iota zeta delta
      [bind try_except call ret raise when path_exists
       world disk app res events final snd].

Lemma wait_loop_polling (self : Solver) (start : Q) (fuel : nat) :
  forall (j : nat) (s : State World),
    (start + inject_Z (2 * Z.of_nat j) <= now (world s))%Q ->
    (j <= 60)%nat -> (60 - j < fuel)%nat ->
    exists n b,
      res (wait_loop ext self fuel start s) = Ok b /\
      polling start n (events (wait_loop ext self fuel start s)) b /\
      (n + j <= 60)%nat.
Proof.
  induction fuel as [|fuel IH]; intros j [w d] Hnow Hj60 Hfuel; [lia|].
  cbn [world] in Hnow.
  cbn [wait_loop]. wnorm.
  destruct (time_reads ext now clocked w) as (t & w1 & Ht & Hle & Hw1).
  rewrite Ht. wnorm.
  destruct (Qlt_le_dec (float_sub t start) max_wait) as [Hlt|Hge]; wnorm.
  2: { exists 0%nat, false.
       split; [reflexivity|]. split; [|lia]. constructor. exact Hge. }
  unfold max_wait in Hlt.
  pose proof (float_sub_below _ _ Hlt) as Hreal.
  assert (j < 60)%nat as Hj
    by (eapply elapsed_polls; [|exact Hreal]; exact (Qle_trans _ _ _ Hnow Hle)).
  pose proof (time_passes ext now clocked unit (FindElement CaptchaInput) w1) as Hw2.
  destruct (ext unit (FindElement CaptchaInput) w1) as [[[]|] w2];
    cbn [snd] in Hw2; wnorm.
  - destruct (sleep_lasts ext now clocked 2 w2 ltac:(lia)) as (w3 & Hs & Hw3).
    rewrite Hs. wnorm.
    destruct (IH (S j) (mkState w3 (disk_effect (Sleep 2) (Returns tt)
                 (disk_effect (FindElement CaptchaInput) (Returns tt)
                    (disk_effect Time (Returns t) d)))))
      as (n & b & Hr & Hp & Hn).
    { cbn [world]. eapply elapsed_next; [|exact Hw3].
      exact (Qle_trans _ _ _ Hnow (Qle_trans _ _ _ Hle (Qle_trans _ _ _ Hw1 Hw2))). }
    { lia. }
    { lia. }
    revert Hr Hp.
    match goal with |- context [wait_loop ext self fuel start ?st] =>
      destruct (wait_loop ext self fuel start st) as [r' evs' s'] end.
    cbn [res events]. intros -> Hp.
    exists (S n), b. split; [reflexivity|]. split; [|lia].
    apply polling_present; assumption.
  - exists 1%nat, true.
    match goal with |- context [if ?c then _ else _] => destruct c end; wnorm.
    + match goal with |- context [ext ?T ?c ?w] =>
        destruct (ext T c w) as [[[]|] ?] end; wnorm;
        (split; [reflexivity|]); (split; [|lia]);
        apply polling_gone; auto.
    + split; [reflexivity|]. split; [|lia].
      apply polling_gone; auto.
Qed.

(** C8, amended.  On a clock that behaves, and with fuel for 61 loop tests:
    [solve_captcha_with_fallback] of [AmazonCaptchaSolver] returns what
    [solve_captcha] returns when that is [True], with nothing more logged;
    whenever [solve_captcha] returns [False] it goes on to the fallback,
    whose log is a [fallback_log]: with debug output a screenshot first
    (the fallback ends with [False] if taking it raises), then a reading
    of the clock and the wait loop, which polls the challenge input only
    while the reading of the clock minus the reading at the start, a
    difference of floats, is below 120, sleeps 2 seconds after each poll
    that finds it, ends with [True] at the first poll that finds it absent
    and with [False], polling no more, once that difference has reached
    120.  At most 60 polls are made. *)
Theorem manual_fallback_protocol (self : Solver) (max_attempts : Z) (fuel : nat) (s : State World) :
  class self = AmazonCaptchaSolver -> (60 < fuel)%nat ->
  let r0 := solve_captcha U ext self max_attempts s in
  let r := solve_captcha_with_fallback U ext self max_attempts fuel s in
  (res r0 = Ok true \/ res r0 = Ok false) /\
  (res r0 = Ok true -> r = r0) /\
  (res r0 = Ok false ->
   exists n fb b,
     res r = Ok b /\ events r = events r0 ++ fb /\
     fallback_log self n fb b /\ (n <= 60)%nat).
Proof.
  intros Hclass Hfuel r0 r. subst r0 r.
  unfold solve_captcha_with_fallback. rewrite Hclass.
  destruct (solve_captcha_run_returns U ext self max_attempts s) as (b0 & h & Hrun).
  wnorm.
  rewrite (solve_captcha_of_run U ext self max_attempts s b0 h Hrun).
  generalize (events (solve_captcha_run U ext self max_attempts s)) as evs0.
  generalize (final (solve_captcha_run U ext self max_attempts s)) as s0.
  intros [w d] evs0. clear Hrun.
  split; [destruct b0; auto|].
  split.
  { intros [= ->]. wnorm. f_equal. apply app_nil_r. }
  intros [= ->]. wnorm.
  destruct (save_debug_output self) eqn:Hdbg; wnorm.
  - destruct (ext bool (SaveScreenshot (manual_screenshot_path self)) w)
      as [[saved|] w1]; wnorm.
    + destruct (time_reads ext now clocked w1) as (start & w2 & Ht & Hle & Hw2).
      rewrite Ht. wnorm.
      match goal with |- context [wait_loop ext self fuel start ?st] =>
        destruct (wait_loop_polling self start fuel 0 st) as (n & b & Hr & Hp & Hn);
          [cbn [world]; change (inject_Z (2 * Z.of_nat 0)) with 0%Q; lra | lia | lia |];
        revert Hr Hp; destruct (wait_loop ext self fuel start st) as [r' evs' s'] end.
      cbn [res events]. intros -> Hp.
      exists n, (Ev (SaveScreenshot (manual_screenshot_path self)) (Returns saved)
                 :: Ev Time (Returns start) :: evs'), b.
      split; [reflexivity|]. split; [reflexivity|]. split; [|lia].
      apply (fallback_waits self [Ev (SaveScreenshot (manual_screenshot_path self)) (Returns saved)]).
      * rewrite Hdbg. eauto.
      * exact Hp.
    + exists 0%nat, [Ev (SaveScreenshot (manual_screenshot_path self)) Raises], false.
      split; [reflexivity|]. split; [reflexivity|]. split; [|lia].
      constructor. exact Hdbg.
  - destruct (time_reads ext now clocked w) as (start & w2 & Ht & Hle & Hw2).
    rewrite Ht. wnorm.
    match goal with |- context [wait_loop ext self fuel start ?st] =>
      destruct (wait_loop_polling self start fuel 0 st) as (n & b & Hr & Hp & Hn);
        [cbn [world]; change (inject_Z (2 * Z.of_nat 0)) with 0%Q; lra | lia | lia |];
      revert Hr Hp; destruct (wait_loop ext self fuel start st) as [r' evs' s'] end.
    cbn [res events]. intros -> Hp.
    exists n, (Ev Time (Returns start) :: evs'), b.
    split; [reflexivity|]. split; [reflexivity|]. split; [|lia].
    apply (fallback_waits self []).
    * rewrite Hdbg. reflexivity.
    * exact Hp.
Qed.
End WaitProperties.

Lemma scripted_clocked : WellClocked scripted clock.
Proof.
  constructor.
  - intros w. exists (clock w), w. cbn. repeat split; lra.
  - intros secs w Hsecs. eexists. cbn.
    destruct (secs <? 0) eqn:Hneg; [apply Z.ltb_lt in Hneg; lia|].
    split; [reflexivity|]. cbn. lra.
  - intros T c w.
    assert (forall q : answer T * Script,
              (clock w <= clock (snd (match replies w with
                                      | [] => (Raises, w)
                                      | r :: rest => (reply_to c r, mkScript (clock w) rest)
                                      end)))%Q) as Hpop
      by (intros _; destruct (replies w); cbn; lra).
    destruct c; cbn; try apply (Hpop (Raises, w)); try lra.
    destruct (secs <? 0) eqn:Hneg; cbn; [lra|].
    apply Z.ltb_ge in Hneg. rewrite Zle_Qle in Hneg.
    change (inject_Z 0) with 0%Q in Hneg. lra.
Qed.

Lemma passes_bound (max_attempts : Z) (n : nat) :
  0 <= max_attempts ->
  (passes max_attempts (map (fun i => (0 + Z.of_nat i)%Z) (seq 0 n))
   <= Nat.min n (Z.to_nat max_attempts))%nat.
Proof.
  intros Hmax. unfold passes. induction n as [|n IH]; [cbn; lia|].
  rewrite seq_S, map_app, List.filter_app, length_app. cbn [map List.filter plus].
  destruct (0 + Z.of_nat n <? max_attempts) eqn:Hlt; cbn [length].
  - apply Z.ltb_lt in Hlt. lia.
  - lia.
Qed.

Lemma counts_from_bound (max_attempts : Z) (h : list Z) :
  counts_from 0 h -> (length h <= S (Z.to_nat max_attempts))%nat ->
  0 <= max_attempts ->
  Forall (fun a => 0 <= a <= max_attempts) h.
Proof.
  intros Hcnt Hlen Hmax. rewrite Hcnt. apply Forall_forall. intros a Ha.
  apply list_elem_of_In, in_map_iff in Ha. destruct Ha as (i & <- & Hi).
  apply in_seq in Hi. lia.
Qed.

Lemma absent_query_inert (e : Event) :
  input_absent e = true ->
  is_download e = false /\ forall d, replay [e] d = d.
Proof.
  destruct e as [T c a]. destruct c; cbn; try discriminate; auto.
Qed.

(** ** Files that stay on disk *)



(** * The claims *)

Section Claims.

Context (U : Unicode) {World : Type} (ext : forall T, extE T -> World -> answer T * World).

(** C2. With a positive [max_attempts] a run of [solve_captcha] returns;
    the values of [attempt] at the loop tests are 0, 1, 2, ... and none
    exceeds [max_attempts]; the loop body is entered at most [max_attempts]
    times and the recognition engine is run at most [max_attempts] times;
    and when [False] is returned by a solver with an engine, the counter
    has reached [max_attempts]. *)
Theorem attempt_counter_bounded (self : Solver) (max_attempts : Z) (s : State World) :
  0 < max_attempts ->
  exists b h,
    res (solve_captcha_run U ext self max_attempts s) = Ok (b, h) /\
    counts_from 0 h /\
    Forall (fun a => 0 <= a <= max_attempts) h /\
    (passes max_attempts h <= Z.to_nat max_attempts)%nat /\
    (length (List.filter is_recognition
               (events (solve_captcha_run U ext self max_attempts s)))
     <= Z.to_nat max_attempts)%nat /\
    (b = false -> reader self <> None -> last h = Some max_attempts).
Proof.
  intros Hmax.
  pose proof (solve_captcha_run_ok U ext self max_attempts s) as H.
  destruct (reader self) as [[]|].
  - destruct H as (b & h & Hr & Hcnt & Hb & Hrec & _).
    rewrite Z.sub_0_r in *.
    assert (length h <= S (Z.to_nat max_attempts))%nat as Hlen
      by (destruct b; [lia | destruct Hb; lia]).
    exists b, h. split; [exact Hr|]. split; [exact Hcnt|].
    split; [apply counts_from_bound; auto; lia|].
    split. { rewrite Hcnt. pose proof (passes_bound max_attempts (length h)). lia. }
    split; [exact Hrec|].
    intros -> _. destruct Hb as [Hlen' _]. rewrite Hcnt, Hlen'.
    rewrite seq_S, map_app. cbn [map]. rewrite last_snoc. f_equal. lia.
  - rewrite H. exists false, []. cbn. repeat split; auto; try lia.
    intros _ Hc. contradiction.
Qed.

(** C7. When the first query of a run finds the challenge input absent,
    the run returns [True] with [attempt] still 0; the query is its only
    event, so nothing is downloaded, and the disk is untouched. *)
Theorem absent_input_reports_solved (self : Solver) (max_attempts : Z) (s : State World) :
  let r := solve_captcha_run U ext self max_attempts s in
  first_query_absent (events r) = true ->
  res r = Ok (true, [0]) /\
  length (events r) = 1%nat /\
  List.filter is_download (events r) = [] /\
  disk (final r) = disk s.
Proof.
  intros r Habs. subst r.
  pose proof (solve_captcha_run_ok U ext self max_attempts s) as H.
  destruct (reader self) as [[]|].
  - destruct H as (b & h & Hr & _ & _ & _ & _ & Hdisk & _ & Hfirst & _).
    destruct (events (solve_captcha_run U ext self max_attempts s)) as [|e rest];
      [discriminate Habs|].
    cbn [first_query_absent] in Habs.
    destruct (Hfirst Habs) as (-> & -> & ->).
    destruct (absent_query_inert e Habs) as [Hdl Hinert].
    split; [exact Hr|]. split; [reflexivity|].
    split; [cbn; rewrite Hdl; reflexivity|].
    rewrite Hdisk. apply Hinert.
  - rewrite H in Habs. discriminate Habs.
Qed.

Lemma solve_captcha_without_engine (self : Solver) (max_attempts : Z) (s : State World) :
  reader self = None ->
  solve_captcha U ext self max_attempts s = mkRun (Ok false) [] s.
Proof.
  intros H. unfold solve_captcha, solve_captcha_run, bind. rewrite H. reflexivity.
Qed.

(** C4. When the construction of the recognition engine raised while the
    solver was built, the solver has no engine, and every later call of
    [solve_captcha], whatever [max_attempts] and the state of the world,
    returns [False] at once, with no external call at all: no image is
    fetched, preprocessed or recognised. *)
Theorem engine_failure_short_circuits (c : SolverClass) (dir : pystr) (debug : bool)
    (s : State World) (self : Solver) :
  res (__init__ ext c dir debug s) = Ok self ->
  existsb engine_init_failed (events (__init__ ext c dir debug s)) = true ->
  reader self = None /\
  forall max_attempts s',
    solve_captcha U ext self max_attempts s' = mkRun (Ok false) [] s'.
Proof.
  intros Hres Hfail.
  assert (reader self = None) as Hreader.
  { revert Hres Hfail. destruct s as [w d]. unfold __init__.
    cbv beta iota zeta delta [bind try_except call ret when path_exists world disk app res events final].
    destruct (debug && negb (bool_decide (dir ∈ d))).
    - destruct (ext unit (Makedirs dir) w) as [[[]|] w1]; [|discriminate].
      destruct (ext unit (EasyocrReader (gpu c)) w1) as [[[]|] w2].
      + intros _ Hfail. discriminate Hfail.
      + intros [= <-] _. reflexivity.
    - destruct (ext unit (EasyocrReader (gpu c)) w) as [[[]|] w2].
      + intros _ Hfail. discriminate Hfail.
      + intros [= <-] _. reflexivity. }
  split; [exact Hreader|]. intros max_attempts s'.
  apply solve_captcha_without_engine, Hreader.
Qed.

(** C3. In a pass of the loop of [AmazonCaptchaSolver] (and of
    [SeleniumCaptchaSolver]) in which the recognised text, after
    correction, has fewer than four characters, nothing is submitted, the
    events after the recognition are those of [_try_different_image], and
    the pass goes on with [attempt + 1].  In a whole run every submitted
    text has at least four characters. *)
Theorem short_text_not_submitted (self : Solver) :
  class self <> PlaywrightCaptchaSolver ->
  (forall attempt s text post,
     let r := loop_body U ext self attempt s in
     after_recognition U (events r) = Some (text, post) ->
     len text < 4 ->
     submitted (events r) = [] /\
     is_new_image_request post = true /\
     res r = Ok (Continue (attempt + 1))) /\
  (forall max_attempts s,
     Forall (fun text => 4 <= len text)
            (submitted (events (solve_captcha U ext self max_attempts s)))).
Proof.
  intros Hclass. split.
  - intros attempt s text post r. subst r.
    destruct (loop_body_ok U ext self attempt s) as (_ & _ & _ & _ & _ & _ & Hshort & _).
    apply Hshort, Hclass.
  - intros max_attempts s.
    destruct (solve_captcha_run_returns U ext self max_attempts s) as (b & h & Hrun).
    rewrite (solve_captcha_of_run U ext self max_attempts s b h Hrun). cbn [events].
    pose proof (solve_captcha_run_ok U ext self max_attempts s) as H.
    destruct (reader self).
    + destruct H as (b' & h' & _ & _ & _ & _ & Hsub & _).
      eapply Forall_impl; [exact Hsub|]. intros t [Ht _]. exact Ht.
    + rewrite H. constructor.
Qed.

(** What follows a submission, in every pass of the loop of the two
    Selenium classes. *)
Lemma verification_outcome (self : Solver) (attempt : Z) (s : State World) :
  verifies self attempt (loop_body U ext self attempt s).
Proof. apply (loop_body_ok U ext self attempt s). Qed.


(** C10, amended.  On ASCII input the corrected text is made of upper-case
    ASCII letters and of the digits 2, 3, 4, 6, 7, 9.  On any input it has
    none of the digits 0, 1, 5, 8.  So a text with one of these digits is
    never submitted by [solve_captcha]: a challenge whose answer has one is
    not answered. *)
Theorem corrected_text_alphabet :
  (forall s, Forall (fun c => is_ascii c = true) s ->
             Forall (fun c => canonical c = true) (_fix_common_errors U s)) /\
  (forall s, Forall (fun c => is_digit_0158 c = false) (_fix_common_errors U s)) /\
  (forall (self : Solver) max_attempts (s : State World) answer,
     Exists (fun c => is_digit_0158 c = true) answer ->
     ~ In answer (submitted (events (solve_captcha U ext self max_attempts s)))).
Proof.
  split; [|split].
  - apply fix_common_errors_canonical.
  - apply fix_common_errors_no_0158.
  - intros self max_attempts s answer Hdigit Hin.
    destruct (solve_captcha_run_returns U ext self max_attempts s) as (b & h & Hrun).
    rewrite (solve_captcha_of_run U ext self max_attempts s b h Hrun) in Hin.
    cbn [events] in Hin.
    pose proof (solve_captcha_run_ok U ext self max_attempts s) as H.
    destruct (reader self).
    + destruct H as (b' & h' & _ & _ & _ & _ & Hsub & _).
      rewrite Forall_forall in Hsub. apply list_elem_of_In, Hsub in Hin as [_ Hno].
      apply Exists_exists in Hdigit as (c & Hc & Hd).
      rewrite Forall_forall in Hno. apply Hno in Hc. congruence.
    + rewrite H in Hin. exact Hin.
Qed.

(** C5, amended.  On ASCII strings the corrector is idempotent. *)
Theorem corrector_idempotent_on_ascii (s : pystr) :
  Forall (fun c => is_ascii c = true) s ->
  _fix_common_errors U (_fix_common_errors U s) = _fix_common_errors U s.
Proof.
  intros H. apply fix_common_errors_fixed, fix_common_errors_canonical, H.
Qed.

(** C6.  The worked examples: A B-C1 and ABC1 both give ABCI, and 0851
    gives OBSI; the corrector computes what the reference algorithm of the
    specification does (filter, upper-case, then the four rules in table
    order, each over the whole string); on the examples the output is as
    long as the input has alphanumeric characters. *)
Theorem corrector_worked_examples :
  _fix_common_errors U (py "A B-C1") = py "ABCI" /\
  _fix_common_errors U (py "ABC1") = py "ABCI" /\
  _fix_common_errors U (py "0851") = py "OBSI" /\
  (forall s, _fix_common_errors U s = reference_correct U s) /\
  length (_fix_common_errors U (py "A B-C1"))
    = length (List.filter (isalnum U) (py "A B-C1")) /\
  length (_fix_common_errors U (py "0851"))
    = length (List.filter (isalnum U) (py "0851")).
Proof.
  repeat split; try (vm_compute; reflexivity).
  apply fix_common_errors_reference.
Qed.

End Claims.


(** C1. [SeleniumCaptchaSolver] with [max_attempts = 1] on a page where the
    one attempt goes through and the challenge is gone after the
    submission: the text ABCD is submitted, the query after the submission
    finds the input absent, and [solve_captcha] returns [False].
    [AmazonCaptchaSolver] returns [True] on the same page. *)
Theorem selenium_solution_reported_failed (U : Unicode) :
  let r := solve_captcha U scripted selenium_solver 1 solved_at_once in
  res r = Ok false /\
  submitted (events r) = [py "ABCD"] /\
  (exists q post, after_submission (events r) = Some (q, post) /\ input_absent q = true) /\
  res (solve_captcha U scripted amazon_solver 1 solved_at_once) = Ok true.
Proof.
  vm_compute. repeat split. eexists _, _. split; reflexivity.
Qed.



(** C5 as stated fails on the one-letter string U+01F0 (j with caron): it
    is alphanumeric and upper-cases to J followed by the combining caron,
    which a second pass removes. *)
Lemma corrector_not_idempotent :
  _fix_common_errors unicode_excerpt (_fix_common_errors unicode_excerpt [496%N])
  <> _fix_common_errors unicode_excerpt [496%N].
Proof. vm_compute. discriminate. Qed.

(** C10 as stated fails on the one-letter string U+00E9 (e with acute):
    the output is U+00C9, which is not ASCII. *)
Lemma corrector_output_not_ascii :
  ~ Forall (fun c => is_upper_alnum c = true)
           (_fix_common_errors unicode_excerpt [233%N]).
Proof.
  change (_fix_common_errors unicode_excerpt [233%N]) with [201%N].
  intros H. apply Forall_inv in H. vm_compute in H. discriminate H.
Qed.


(** C8 as stated fails.  A solver without engine, [max_attempts = 3]:
    [solve_captcha] returns [False] without a single pass through the loop,
    and the fallback polls all the same (and here reports [True]). *)
Lemma fallback_without_exhaustion :
  let r := solve_captcha_with_fallback unicode_excerpt scripted
             amazon_without_engine 3 61 no_challenge in
  res (solve_captcha_run unicode_excerpt scripted amazon_without_engine 3
                         no_challenge) = Ok (false, []) /\
  existsb (finds CaptchaInput) (events r) = true /\
  res r = Ok true.
Proof. vm_compute. repeat split. Qed.

(** ** Instances *)

Lemma attempt_counter_bounded_witness :
  0 < 1 /\
  exists b h,
    res (solve_captcha_run unicode_excerpt scripted amazon_debug_solver 1
                           rejected_once) = Ok (b, h) /\
    counts_from 0 h /\
    Forall (fun a => 0 <= a <= 1) h.
Proof.
  split; [lia|].
  destruct (attempt_counter_bounded unicode_excerpt scripted amazon_debug_solver
              1 rejected_once ltac:(lia)) as (b & h & H1 & H2 & H3 & _).
  exists b, h. auto.
Defined.

Lemma short_text_not_submitted_witness :
  class amazon_solver <> PlaywrightCaptchaSolver /\
  after_recognition unicode_excerpt
    (events (loop_body unicode_excerpt scripted amazon_solver 0 short_reading))
  = Some (py "AB", [Ev (FindElement TryDifferentImageLink) (Returns tt);
                    Ev (Click TryDifferentImageLink) (Returns tt);
                    Ev (Sleep 1) (Returns tt)]) /\
  len (py "AB") < 4 /\
  submitted (events (loop_body unicode_excerpt scripted amazon_solver 0
                               short_reading)) = [] /\
  res (loop_body unicode_excerpt scripted amazon_solver 0 short_reading)
  = Ok (Continue 1).
Proof.
  assert (class amazon_solver <> PlaywrightCaptchaSolver) as Hc by discriminate.
  assert (after_recognition unicode_excerpt
    (events (loop_body unicode_excerpt scripted amazon_solver 0 short_reading))
  = Some (py "AB", [Ev (FindElement TryDifferentImageLink) (Returns tt);
                    Ev (Click TryDifferentImageLink) (Returns tt);
                    Ev (Sleep 1) (Returns tt)])) as Hrec
    by (vm_compute; reflexivity).
  assert (len (py "AB") < 4) as Hlen by (vm_compute; reflexivity).
  destruct (short_text_not_submitted unicode_excerpt scripted amazon_solver Hc)
    as [H _].
  destruct (H 0 short_reading _ _ Hrec Hlen) as (H1 & _ & H3).
  split; [exact Hc|]. split; [exact Hrec|]. split; [exact Hlen|].
  split; [exact H1 | exact H3].
Defined.

Lemma engine_failure_short_circuits_witness :
  res (__init__ scripted AmazonCaptchaSolver (py "captcha_failures") false
                no_challenge) = Ok amazon_without_engine /\
  existsb engine_init_failed
    (events (__init__ scripted AmazonCaptchaSolver (py "captcha_failures") false
                      no_challenge)) = true /\
  solve_captcha unicode_excerpt scripted amazon_without_engine 3 solved_at_once
  = mkRun (Ok false) [] solved_at_once.
Proof.
  assert (res (__init__ scripted AmazonCaptchaSolver (py "captcha_failures")
                        false no_challenge) = Ok amazon_without_engine) as Hres
    by (vm_compute; reflexivity).
  assert (existsb engine_init_failed
            (events (__init__ scripted AmazonCaptchaSolver
                              (py "captcha_failures") false no_challenge))
          = true) as Hfail by (vm_compute; reflexivity).
  destruct (engine_failure_short_circuits unicode_excerpt scripted
              AmazonCaptchaSolver (py "captcha_failures") false no_challenge
              amazon_without_engine Hres Hfail) as [_ H].
  split; [exact Hres|]. split; [exact Hfail|]. apply H.
Defined.

Lemma corrector_idempotent_on_ascii_witness :
  Forall (fun c => is_ascii c = true) (py "A B-C1") /\
  _fix_common_errors unicode_excerpt
    (_fix_common_errors unicode_excerpt (py "A B-C1"))
  = _fix_common_errors unicode_excerpt (py "A B-C1").
Proof.
  assert (Forall (fun c => is_ascii c = true) (py "A B-C1")) as H
    by (repeat constructor).
  split; [exact H|].
  apply (corrector_idempotent_on_ascii unicode_excerpt (py "A B-C1") H).
Defined.

Lemma absent_input_reports_solved_witness :
  first_query_absent
    (events (solve_captcha_run unicode_excerpt scripted amazon_solver 3
                               no_challenge)) = true /\
  res (solve_captcha_run unicode_excerpt scripted amazon_solver 3 no_challenge)
  = Ok (true, [0]).
Proof.
  assert (first_query_absent
            (events (solve_captcha_run unicode_excerpt scripted amazon_solver 3
                                       no_challenge)) = true) as H
    by (vm_compute; reflexivity).
  split; [exact H|].
  apply (absent_input_reports_solved unicode_excerpt scripted amazon_solver 3
                                     no_challenge H).
Defined.

Lemma manual_fallback_protocol_witness :
  class amazon_solver = AmazonCaptchaSolver /\ (60 < 61)%nat /\
  exists n fb b,
    res (solve_captcha_with_fallback unicode_excerpt scripted amazon_solver 1 61
                                     no_image) = Ok b /\
    events (solve_captcha_with_fallback unicode_excerpt scripted amazon_solver
                                        1 61 no_image)
    = events (solve_captcha unicode_excerpt scripted amazon_solver 1 no_image)
      ++ fb /\
    fallback_log amazon_solver n fb b /\ (n <= 60)%nat.
Proof.
  assert (60 < 61)%nat as Hfuel by lia.
  split; [reflexivity|]. split; [exact Hfuel|].
  destruct (manual_fallback_protocol unicode_excerpt scripted clock
              scripted_clocked amazon_solver 1 61 no_image eq_refl Hfuel)
    as (_ & _ & H).
  apply H. vm_compute. reflexivity.
Defined.


Lemma corrected_text_alphabet_witness :
  Forall (fun c => is_ascii c = true) (py "a1-b8") /\
  Forall (fun c => canonical c = true)
         (_fix_common_errors unicode_excerpt (py "a1-b8")) /\
  Exists (fun c => is_digit_0158 c = true) (py "ABC1") /\
  ~ In (py "ABC1")
       (submitted (events (solve_captcha unicode_excerpt scripted amazon_solver
                                         1 solved_at_once))).
Proof.
  destruct (corrected_text_alphabet unicode_excerpt scripted) as (Hc & _ & Hs).
  assert (Forall (fun c => is_ascii c = true) (py "a1-b8")) as Ha
    by (repeat constructor).
  assert (Exists (fun c => is_digit_0158 c = true) (py "ABC1")) as Hd
    by (do 3 apply Exists_cons_tl; apply Exists_cons_hd; reflexivity).
  split; [exact Ha|]. split; [apply Hc, Ha|]. split; [exact Hd|].
  apply Hs, Hd.
Defined.
(** * Further properties *)

(** ** More on the text corrector *)

Section TextMore.
Context (U : Unicode).

Lemma fix_common_errors_app (s t : pystr) :
  _fix_common_errors U (s ++ t)
  = _fix_common_errors U s ++ _fix_common_errors U t.
Proof.
  rewrite !fix_common_errors_map. unfold upper.
  rewrite List.filter_app, flat_map_app, map_app. reflexivity.
Qed.

Lemma fix_common_errors_join (parts : list pystr) :
  _fix_common_errors U (join parts) = join (map (_fix_common_errors U) parts).
Proof.
  induction parts as [|p parts IH]; [reflexivity|].
  unfold join in *. cbn [concat map]. rewrite fix_common_errors_app, IH.
  reflexivity.
Qed.

(** The corrector works character by character: the corrected text of a
    concatenation is the concatenation of the corrected texts, so it makes
    no difference whether the fragments the engine returns are corrected
    one by one or after being joined. *)
Theorem corrector_distributes :
  (forall s t, _fix_common_errors U (s ++ t)
               = _fix_common_errors U s ++ _fix_common_errors U t) /\
  (forall parts, _fix_common_errors U (join parts)
                 = join (map (_fix_common_errors U) parts)).
Proof. split; [apply fix_common_errors_app | apply fix_common_errors_join]. Qed.

Lemma filter_isalnum_ascii (s : pystr) :
  Forall (fun c => is_ascii c = true) s ->
  List.filter (isalnum U) s = List.filter ascii_isalnum s.
Proof.
  induction 1 as [|c s Hc _ IH]; [reflexivity|].
  cbn [List.filter]. unfold isalnum at 1. rewrite Hc, IH. reflexivity.
Qed.

(** On ASCII input the corrector only drops characters: the corrected text
    has exactly as many characters as the input has alphanumeric ones, and
    is never longer than the input. *)
Theorem corrector_length_on_ascii (s : pystr) :
  Forall (fun c => is_ascii c = true) s ->
  length (_fix_common_errors U s) = length (List.filter (isalnum U) s) /\
  len (_fix_common_errors U s) <= len s.
Proof.
  intros H. rewrite fix_common_errors_ascii, filter_isalnum_ascii by exact H.
  rewrite length_map. split; [reflexivity|].
  unfold len. rewrite length_map. pose proof (List.filter_length_le ascii_isalnum s). lia.
Qed.

(** On ASCII input the corrector leaves a text as it is exactly when the
    text is made of upper-case letters and the digits 2, 3, 4, 6, 7, 9. *)
Theorem corrector_fixed_points_on_ascii (s : pystr) :
  Forall (fun c => is_ascii c = true) s ->
  (_fix_common_errors U s = s <-> Forall (fun c => canonical c = true) s).
Proof.
  intros H. split.
  - intros Heq. rewrite <- Heq. apply fix_common_errors_canonical, H.
  - apply fix_common_errors_fixed.
Qed.

Lemma upper_ascii (s : pystr) :
  Forall (fun c => is_ascii c = true) s -> upper U s = map ascii_upper s.
Proof.
  induction 1 as [|c s Hc _ IH]; [reflexivity|].
  unfold upper in *. cbn [flat_map map]. unfold upper_cp at 1. rewrite Hc, IH. reflexivity.
Qed.

Lemma ascii_upper_facts (c : codepoint) :
  is_ascii c = true ->
  is_ascii (ascii_upper c) = true /\
  ascii_isalnum (ascii_upper c) = ascii_isalnum c /\
  ascii_upper (ascii_upper c) = ascii_upper c /\
  (ascii_isspace c = true -> ascii_isalnum c = false).
Proof.
  intros Hc.
  pose proof (ascii_forall
    (fun c => is_ascii (ascii_upper c)
              && Bool.eqb (ascii_isalnum (ascii_upper c)) (ascii_isalnum c)
              && (ascii_upper (ascii_upper c) =? ascii_upper c)%N
              && (negb (ascii_isspace c) || negb (ascii_isalnum c)))
    eq_refl c Hc) as H.
  cbv beta in H. repeat (apply andb_true_iff in H as [H ?]).
  split; [exact H|]. split; [apply Bool.eqb_prop; assumption|].
  split; [apply N.eqb_eq; assumption|].
  intros Hs. rewrite Hs in *. cbn in *. destruct (ascii_isalnum c); [discriminate|reflexivity].
Qed.

Lemma fix_upper_ascii (s : pystr) :
  Forall (fun c => is_ascii c = true) s ->
  Forall (fun c => is_ascii c = true) (upper U s) /\
  _fix_common_errors U (upper U s) = _fix_common_errors U s.
Proof.
  intros H. rewrite upper_ascii by exact H.
  assert (Forall (fun c => is_ascii c = true) (map ascii_upper s)) as H'.
  { apply Forall_forall. intros c Hc. apply list_elem_of_In, in_map_iff in Hc as (c0 & <- & Hc0).
    rewrite Forall_forall in H. apply ascii_upper_facts, H, list_elem_of_In, Hc0. }
  split; [exact H'|].
  rewrite !fix_common_errors_ascii by assumption.
  induction H as [|c s Hc _ IH]; [reflexivity|].
  apply Forall_cons in H' as [_ H'].
  destruct (ascii_upper_facts c Hc) as (_ & Ha & Hu & _).
  cbn [map List.filter]. rewrite Ha. destruct (ascii_isalnum c); [|auto].
  cbn [map]. rewrite Hu. f_equal. auto.
Qed.

Lemma lstrip_split (s : pystr) :
  exists pre, s = pre ++ lstrip U s /\ Forall (fun c => isspace U c = true) pre.
Proof.
  induction s as [|c s (pre & Hs & Hpre)]; [exists []; auto|].
  cbn [lstrip]. destruct (isspace U c) eqn:Hc.
  - exists (c :: pre). cbn. rewrite <- Hs. auto.
  - exists []. auto.
Qed.

Lemma strip_split (s : pystr) :
  exists pre post,
    s = pre ++ strip U s ++ post /\
    Forall (fun c => isspace U c = true) pre /\
    Forall (fun c => isspace U c = true) post.
Proof.
  destruct (lstrip_split s) as (pre & Hs & Hpre).
  destruct (lstrip_split (rev (lstrip U s))) as (tsop & Hr & Hpost).
  exists pre, (rev tsop). unfold strip, rstrip.
  split; [|split; [exact Hpre | apply Forall_rev, Hpost]].
  rewrite <- rev_app_distr, <- Hr, rev_involutive. exact Hs.
Qed.

Lemma fix_spaces_ascii (ws : pystr) :
  Forall (fun c => is_ascii c = true) ws ->
  Forall (fun c => isspace U c = true) ws ->
  _fix_common_errors U ws = [].
Proof.
  intros Ha Hs. rewrite fix_common_errors_ascii by exact Ha.
  induction Ha as [|c ws Hc _ IH]; [reflexivity|].
  apply Forall_cons in Hs as [Hsc Hs]. unfold isspace in Hsc. rewrite Hc in Hsc.
  destruct (ascii_upper_facts c Hc) as (_ & _ & _ & Hns).
  cbn [List.filter]. rewrite (Hns Hsc). auto.
Qed.

(** When the engine returns ASCII fragments, the [upper()] and [strip()]
    that [_recognize_captcha] applies before the corrector change nothing:
    the recognised text is the corrected fragments, joined. *)
Theorem recognition_preprocessing_redundant (results : list pystr) :
  Forall (fun c => is_ascii c = true) (join results) ->
  recognized_text U (Returns results)
  = join (map (_fix_common_errors U) results).
Proof.
  intros H. cbn [recognized_text].
  destruct (fix_upper_ascii (join results) H) as [Hup Hfix].
  destruct (strip_split (upper U (join results))) as (pre & post & Hs & Hpre & Hpost).
  set (core := strip U (upper U (join results))) in *.
  rewrite Hs in Hup. apply Forall_app in Hup as [Hapre Hup].
  apply Forall_app in Hup as [_ Hapost].
  rewrite <- fix_common_errors_join, <- Hfix, Hs.
  rewrite !fix_common_errors_app.
  rewrite (fix_spaces_ascii pre), (fix_spaces_ascii post) by assumption.
  rewrite app_nil_r. reflexivity.
Qed.

End TextMore.

(** ** The order of the replacements *)

Lemma subst1_commute (o1 n1 o2 n2 c : codepoint) :
  o1 <> o2 -> o1 <> n2 -> o2 <> n1 ->
  subst1 o1 n1 (subst1 o2 n2 c) = subst1 o2 n2 (subst1 o1 n1 c).
Proof.
  intros H0 H1 H2. unfold subst1.
  destruct (N.eqb_spec o2 c), (N.eqb_spec o1 c); subst;
    repeat match goal with
    | |- context [N.eqb ?a ?b] => destruct (N.eqb_spec a b)
    end; congruence.
Qed.

Lemma replacements_commute (r1 r2 : pystr * pystr) (text : pystr) :
  In r1 replacements -> In r2 replacements ->
  replace (fst r1) (snd r1) (replace (fst r2) (snd r2) text)
  = replace (fst r2) (snd r2) (replace (fst r1) (snd r1) text).
Proof.
  intros H1 H2. cbn in H1, H2.
  destruct H1 as [<-|[<-|[<-|[<-|[]]]]], H2 as [<-|[<-|[<-|[<-|[]]]]];
    try reflexivity; cbn [fst snd];
    rewrite !replace_char, !map_map; apply map_ext; intros c;
    apply subst1_commute; discriminate.
Qed.

(** The result of the corrector does not depend on the order in which the
    dictionary of replacements is iterated: applying the four replacements
    in any order gives the same text. *)
Theorem replacement_order_immaterial (U : Unicode) (table : list (pystr * pystr))
    (text : pystr) :
  Permutation replacements table ->
  fold_left (fun text '(error, correction) => replace error correction text)
            table (upper U (List.filter (isalnum U) text))
  = _fix_common_errors U text.
Proof.
  intros Hperm. unfold _fix_common_errors.
  generalize (upper U (List.filter (isalnum U) text)) as t. intros t.
  rewrite <- !fold_left_rev_right.
  apply Permutation_rev' in Hperm.
  symmetry.
  apply (foldr_permutation eq
           (fun (y : pystr * pystr) (x : pystr) =>
              let '(error, correction) := y in replace error correction x) t);
    [|exact Hperm].
  intros j1 [e1 c1] j2 [e2 c2] b _ Hj1 Hj2.
  apply (replacements_commute (e1, c1) (e2, c2)).
  - apply in_rev, list_elem_of_In, list_elem_of_lookup. eauto.
  - apply in_rev, list_elem_of_In, list_elem_of_lookup. eauto.
Qed.

(** ** The methods one by one *)

Ltac norm_more :=
  cbv beta iota zeta delta
      [bind try_except call ret raise out_of_fuel when for_each path_exists
       loop_body attempt_body pw_attempt_body
       _download_captcha_image pw_download_captcha_image download_from_element
       _preprocess_image _recognize_captcha _cleanup_files files_to_clean
       self_cleanup_files _try_different_image pw_try_different_image
       __init__
       world disk app res events final
       class save_debug_output reader output_dir].

Ltac read_more :=
  cbn [submitted removed written omap list_omap submitted_text removed_path
       written_path List.filter is_recognition is_download input_absent
       returned raised finds clicks sleeps Locator_eqb replay
       fold_left disk_effect length app mbind option_bind after_recognition
       after_submission is_new_image_request forallb existsb is_removal
       failed_removals remove_raised files_to_clean class save_debug_output
       reader output_dir
       andb negb orb recognized_text Z.eqb Pos.eqb
       downloaded pipeline_output image_missing is_input_query last_input_query
       last asks_new_image is_makedirs engine_init_failed res events final disk world].

Section MethodProperties.
Context (U : Unicode) {World : Type}.
Context (ext : forall T, extE T -> World -> answer T * World).

Ltac exec_step :=
  match goal with
  | |- context [ext ?T ?c ?w] =>
      let a := fresh "a" in let w' := fresh "w" in
      destruct (ext T c w) as [[a|] w'] eqn:?
  | |- context [if negb ?b then _ else _] => destruct b eqn:?; cbn [negb]
  | |- context [if ?b then _ else _] => destruct b eqn:?
  | |- context [match ?x with Some _ => _ | None => _ end] => destruct x eqn:?
  end; norm_more.

Ltac exec := norm_more; cbn [negb andb]; repeat exec_step.

(** [_download_captcha_image] never raises, in the Selenium classes and in
    the Playwright class.  It returns [None] only when a call raised (in the
    Playwright class also when the image was not found); a path only with
    debug output, the path of the raw download, which is then on disk; a
    buffer only without debug output, holding what was downloaded, with the
    disk untouched. *)
Theorem download_never_raises (self : Solver) (s : State World) :
  download_outcome false self s (_download_captcha_image ext self s) /\
  download_outcome true self s (pw_download_captcha_image ext self s).
Proof.
  destruct self as [c dir dbg rd]. destruct s as [w d]. unfold download_outcome.
  split.
  - remember (_download_captcha_image ext _ _) as r eqn:Hr. revert Hr.
    destruct dbg; exec; intros ->; read_more; auto;
      repeat split; auto; set_solver.
  - remember (pw_download_captcha_image ext _ _) as r eqn:Hr. revert Hr.
    destruct dbg; exec; intros ->; read_more; auto;
      repeat split; auto; set_solver.
Qed.

(** [_preprocess_image] never raises.  It returns [None] exactly when a
    call raised, and otherwise the image the pipeline produced.  It writes
    no file but the processed image, deletes nothing, and without debug
    output leaves the disk as it was. *)
Theorem preprocess_never_raises (self : Solver) (src : ImageSrc) (s : State World) :
  let r := _preprocess_image ext self src s in
  preprocess_outcome r /\
  Forall (fun path => path = preprocessed_path self) (written (events r)) /\
  removed (events r) = [] /\
  (save_debug_output self = false -> disk (final r) = disk s).
Proof.
  destruct self as [c dir dbg rd]. destruct s as [w d]. unfold preprocess_outcome.
  cbv zeta.
  remember (_preprocess_image ext _ _ _) as r eqn:Hr. revert Hr.
  destruct dbg; exec; intros ->; read_more;
    repeat match goal with b : bool |- _ => destruct b end; read_more;
    repeat split; auto; try discriminate.
Qed.

(** [_recognize_captcha] never raises and always returns a text, which has
    none of the digits 0, 1, 5, 8.  It runs the engine at most once; the
    text is empty when there is no engine (and then nothing is called) and
    when the engine raised.  The disk is untouched. *)
Theorem recognize_never_raises (self : Solver) (image : ndarray) (s : State World) :
  let r := _recognize_captcha U ext self image s in
  exists text,
    res r = Ok text /\
    Forall (fun c => is_digit_0158 c = false) text /\
    (events r = [] \/ after_recognition U (events r) = Some (text, [])) /\
    (reader self = None -> events r = [] /\ text = []) /\
    (existsb raised (events r) = true -> text = []) /\
    disk (final r) = disk s.
Proof.
  destruct self as [c dir dbg rd]. destruct s as [w d]. cbv zeta.
  remember (_recognize_captcha U ext _ _ _) as r eqn:Hr. revert Hr.
  destruct rd as [[]|]; exec; intros ->; read_more; eexists;
    (split; [reflexivity|]); (split; [try apply fix_common_errors_no_0158; constructor|]);
    repeat split; auto; discriminate.
Qed.

(** [_try_different_image] never raises and types nothing, whatever the
    page does.  In the Selenium classes it looks the link up, clicks it and
    sleeps, stopping at the first call that raises; in the Playwright class
    it starts with the click and waits only if the click went through. *)
Theorem try_different_image_never_raises (s : State World) :
  (let r := _try_different_image ext s in
   res r = Ok tt /\ is_new_image_request (events r) = true /\
   submitted (events r) = [] /\ disk (final r) = disk s) /\
  (let r := pw_try_different_image ext s in
   res r = Ok tt /\ submitted (events r) = [] /\ disk (final r) = disk s /\
   match events r with
   | click :: rest =>
       clicks TryDifferentImageLink click = true /\
       (returned click = false -> rest = [])
   | [] => False
   end).
Proof.
  destruct s as [w d]. cbv zeta. split.
  - remember (_try_different_image ext _) as r eqn:Hr. revert Hr.
    exec; intros ->; read_more;
      repeat match goal with u : unit |- _ => destruct u end; repeat split.
  - remember (pw_try_different_image ext _) as r eqn:Hr. revert Hr.
    exec; intros ->; read_more;
      repeat match goal with u : unit |- _ => destruct u end;
      repeat split; auto; discriminate.
Qed.

(** [_cleanup_files] never raises and calls nothing but [os.remove], and
    that only on the three files of the attempt that are on disk: every
    other file stays, and no file appears.  After a successful attempt with
    debug output none of the three files is left, unless its deletion
    raised; without debug output, or for a failed attempt, nothing is
    called at all. *)
Theorem cleanup_touches_own_files (self : Solver) (attempt : Z) (success : bool)
    (s : State World) :
  let r := _cleanup_files ext self attempt success s in
  res r = Ok tt /\
  forallb is_removal (events r) = true /\
  Forall (fun path => In path (files_to_clean self attempt) /\ path ∈ disk s)
         (removed (events r)) /\
  disk (final r) ⊆ disk s /\
  (forall path, ~ In path (files_to_clean self attempt) ->
                path ∈ disk s -> path ∈ disk (final r)) /\
  (save_debug_output self = true -> success = true ->
   forall path, In path (files_to_clean self attempt) ->
                path ∉ disk (final r) \/ In path (failed_removals (events r))) /\
  (save_debug_output self = false \/ success = false ->
   events r = [] /\ final r = s).
Proof.
  destruct self as [c dir dbg rd]. destruct s as [w d]. cbv zeta.
  remember (_cleanup_files ext _ _ _ _) as r eqn:Hr. revert Hr.
  destruct dbg, success; exec; intros ->; read_more.
  all: repeat match goal with u : unit |- _ => destruct u end.
  all: repeat match goal with
      | H : bool_decide _ = false |- _ => apply bool_decide_eq_false in H
      | H : bool_decide _ = true |- _ => apply bool_decide_eq_true in H
      end.
  all: split; [reflexivity|]. all: split; [reflexivity|].
  all: split; [repeat constructor; cbn [In]; auto 6; set_solver|].
  all: split; [set_solver|].
  all: split; [intros path Hnot Hin; cbn [In] in Hnot; set_solver|].
  all: split; [|intros [Hc|Hc]; first [discriminate Hc | split; reflexivity]].
  all: intros Hd Hs; try discriminate Hd; try discriminate Hs.
  all: intros path Hin; cbn [In] in Hin; destruct Hin as [<-|[<-|[<-|[]]]];
       first [right; cbn [In]; solve [auto 6] | left; set_solver].
Qed.

(** The constructor.  When it returns, the instance has the class and the
    attributes it was given, its engine is missing exactly when the
    initialisation of EasyOCR raised, with debug output the output
    directory is on disk, and without debug output the disk is untouched.
    It raises only with debug output, when the output directory was not
    there and creating it raised; the engine is then not even
    initialised. *)
Theorem init_outcome (c : SolverClass) (dir : pystr) (debug : bool)
    (s : State World) :
  let r := __init__ ext c dir debug s in
  match res r with
  | Ok self =>
      class self = c /\ output_dir self = dir /\
      save_debug_output self = debug /\
      (reader self = None <-> existsb engine_init_failed (events r) = true) /\
      (debug = true -> dir ∈ disk (final r)) /\
      (debug = false -> disk (final r) = disk s)
  | Raise _ =>
      debug = true /\ (dir ∉ disk s) /\
      existsb (fun e => is_makedirs e && raised e) (events r) = true /\
      List.filter (fun e => engine_init_failed e || is_recognition e) (events r) = [] /\
      length (events r) = 1%nat
  | OutOfFuel => False
  end.
Proof.
  destruct s as [w d]. cbv zeta.
  remember (__init__ ext _ _ _ _) as r eqn:Hr. revert Hr.
  exec; intros ->; read_more.
  all: repeat match goal with u : unit |- _ => destruct u end.
  all: repeat match goal with
      | H : _ && _ = true |- _ => apply andb_true_iff in H as [? ?]
      | H : _ && _ = false |- _ => apply andb_false_iff in H as [?|?]
      | H : negb _ = true |- _ => apply negb_true_iff in H
      | H : negb _ = false |- _ => apply negb_false_iff in H
      | H : bool_decide _ = false |- _ => apply bool_decide_eq_false in H
      | H : bool_decide _ = true |- _ => apply bool_decide_eq_true in H
      end.
  all: subst; repeat split; auto; try discriminate; try (intros; congruence);
       try set_solver.
Qed.
(** *** One pass through the loop body, again *)

Ltac solve_absence :=
  intros Hres; first [discriminate Hres | eexists; split; reflexivity].

Ltac solve_reading :=
  first [left; reflexivity | right; eexists _, _; split; reflexivity].

Ltac solve_idle :=
  intros Hreader Hnone;
  first [exfalso; apply Hreader; reflexivity | discriminate Hnone
        | split; reflexivity].

Ltac solve_own :=
  split; [repeat constructor; cbn [In]; auto 6|];
  split; [repeat constructor; cbn [In]; auto 6|];
  intros Hd; first [discriminate Hd | split; reflexivity].

Lemma loop_body_pass_ok (self : Solver) (attempt : Z) (s : State World) :
  pass_ok U self attempt (loop_body U ext self attempt s).
Proof.
  destruct self as [c dir dbg rd]. destruct s as [w d].
  remember (loop_body U ext _ attempt _) as r eqn:Hr. revert Hr.
  destruct c, dbg, rd as [[]|].
  all: exec.
  all: intros ->.
  all: unfold pass_ok, ends_on_absence, submits_reading, idle_without_reading,
         own_files, downloads_once.
  all: try match goal with
       | H : (len (py "") <? 4) = false |- _ => vm_compute in H; discriminate H
       end.
  all: repeat match goal with b : bool |- _ => destruct b end.
  all: read_more.
  all: split; [solve_absence|].
  all: split; [solve_reading|].
  all: split; [solve_idle|].
  all: split; [solve_own|].
  all: lia.
Qed.

End MethodProperties.

(** ** Whole runs, again *)

Lemma readings_app (U : Unicode) (evs evs' : list Event) :
  readings U (evs ++ evs') = readings U evs ++ readings U evs'.
Proof. apply omap_app. Qed.

Lemma after_recognition_reading (U : Unicode) (evs : list Event) text post :
  after_recognition U evs = Some (text, post) -> In text (readings U evs).
Proof.
  induction evs as [|[T c a] evs IH]; [discriminate|].
  destruct c; cbn; auto.
  intros [= <- _]. left. reflexivity.
Qed.

Lemma last_input_query_app (evs evs' : list Event) q :
  last_input_query evs' = Some q -> last_input_query (evs ++ evs') = Some q.
Proof.
  unfold last_input_query. rewrite List.filter_app, last_app. intros ->. reflexivity.
Qed.

Section RunMore.
Context (U : Unicode) {World : Type}.
Context (ext : forall T, extE T -> World -> answer T * World).

Lemma attempt_loop_run_ok (self : Solver) (max_attempts : Z) (fuel : nat) :
  forall a s, run_ok U self max_attempts a
                     (attempt_loop U ext self max_attempts fuel a s).
Proof.
  induction fuel as [|fuel IH]; intros a s b h; [discriminate|].
  cbn [attempt_loop]. destruct (a <? max_attempts) eqn:Hlt.
  2: { cbn. intros [= <- <-]. repeat split; auto; try lia; try discriminate. }
  apply Z.ltb_lt in Hlt.
  pose proof (loop_body_ok U ext self a s) as Hb.
  pose proof (loop_body_pass_ok U ext self a s) as Hp.
  unfold bind. revert Hb Hp.
  destruct (loop_body U ext self a s) as [rb evb sb]. intros Hb Hp.
  destruct Hb as (Hend & _ & _ & [Hkeep _] & _).
  destruct Hp as (Habs & Hread & _ & (Hw & Hr & Hoff) & Hdl).
  unfold ends_well, ends_on_absence, submits_reading, downloads_once in *.
  cbn [res events final] in *.
  assert (Forall (fun text => In text (readings U evb)) (submitted evb)
          /\ (length (submitted evb) <= 1)%nat) as [Hsub Hone].
  { destruct Hread as [->|(text & post & Hrec & ->)]; [split; [constructor|cbn; lia]|].
    split; [|cbn; lia]. repeat constructor. eapply after_recognition_reading, Hrec. }
  destruct Hend as [-> | ->].
  - specialize (IH (a + 1) sb).
    destruct (attempt_loop U ext self max_attempts fuel (a + 1) sb)
      as [[[b' h']| |] evs' s']; cbn [ret res events]; try discriminate.
    intros [= <- <-]. cbn [fst snd].
    destruct (IH b' h' eq_refl) as (Hw' & Hr' & Hoff' & Hdl' & Hsub' & Hn' & Habs').
    cbn [events] in *. rewrite app_nil_r.
    rewrite written_app, removed_app, submitted_app, readings_app, List.filter_app,
      !length_app, (Hkeep eq_refl).
    split.
    { apply Forall_app. split; (eapply Forall_impl; [eassumption|]); cbn beta.
      - intros p Hp. exists a. split; [left; reflexivity | exact Hp].
      - intros p (a' & Ha' & Hp). exists a'. split; [right; exact Ha' | exact Hp]. }
    split.
    { eapply Forall_impl; [exact Hr'|]. cbn beta. intros p (a' & Ha' & Hp).
      exists a'. split; [|exact Hp]. destruct h'; [discriminate Ha' | exact Ha']. }
    split.
    { intros Hd. destruct (Hoff Hd) as [-> _]. destruct (Hoff' Hd) as [-> ->]. auto. }
    split; [lia|].
    split.
    { apply Forall_app. split; (eapply Forall_impl; [eassumption|]); cbn beta;
        intros t Ht; apply in_or_app; auto. }
    split; [lia|].
    intros Htrue. destruct (Habs' Htrue) as (q & Hq & Hqa).
    exists q. split; [apply last_input_query_app, Hq | exact Hqa].
  - cbn [ret res events]. intros [= <- <-]. rewrite !app_nil_r.
    split.
    { eapply Forall_impl; [exact Hw|]. cbn beta. intros p Hp. exists a. split; [left; reflexivity | exact Hp]. }
    split.
    { eapply Forall_impl; [exact Hr|]. cbn beta. intros p Hp. exists a. split; [reflexivity | exact Hp]. }
    split; [exact Hoff|]. split; [lia|]. split; [exact Hsub|]. split; [lia|].
    intros _. apply Habs. reflexivity.
Qed.

Lemma solve_captcha_run_more (self : Solver) (max_attempts : Z) (s : State World) :
  run_ok U self max_attempts 0 (solve_captcha_run U ext self max_attempts s).
Proof.
  unfold solve_captcha_run. destruct (reader self).
  - apply attempt_loop_run_ok.
  - intros b h. cbn. intros [= <- <-]. repeat split; auto; try lia; try discriminate.
Qed.

End RunMore.

(** ** The paths of the debug files *)

Lemma py_inj (s t : string) : py s = py t -> s = t.
Proof.
  unfold py. intros H.
  rewrite <- (string_of_list_ascii_of_string s), <- (string_of_list_ascii_of_string t).
  f_equal.
  apply (f_equal (List.map ascii_of_N)) in H. rewrite !List.map_map in H.
  rewrite !(List.map_ext (fun x => ascii_of_N (N_of_ascii x)) id), !List.map_id in H
    by apply ascii_N_embedding.
  exact H.
Qed.

Lemma path_join_relative (dir : pystr) :
  exists prefix, forall c rest,
    c <> 47%N -> path_join dir (c :: rest) = prefix ++ c :: rest.
Proof.
  exists (match last dir with
          | None => []
          | Some c => if (c =? 47)%N then dir else dir ++ py "/"
          end).
  intros c rest Hc. unfold path_join.
  change (startswith (py "/") (c :: rest)) with ((47 =? c)%N && true).
  destruct (N.eqb_spec 47 c) as [<-|_]; [contradiction|]. cbn [andb].
  destruct (last dir) as [x|]; [|reflexivity].
  destruct (x =? 47)%N; [reflexivity|]. rewrite <- app_assoc. reflexivity.
Qed.

Lemma screenshot_name_inj (a a' : Z) (tail : pystr) :
  str_of_int a ++ tail = str_of_int a' ++ py ".png" -> tail = py ".png" -> a = a'.
Proof.
  intros H ->. apply app_inv_tail in H. apply py_inj in H.
  apply (inj pretty) in H. exact H.
Qed.

Lemma debug_paths_distinct (self : Solver) (a a' : Z) :
  NoDup (manual_screenshot_path self :: files_to_clean self a) /\
  (screenshot_path self a = screenshot_path self a' -> a = a').
Proof.
  destruct (path_join_relative (output_dir self)) as (prefix & Hjoin).
  unfold files_to_clean, manual_screenshot_path, temp_img_path,
    preprocessed_path, screenshot_path.
  change (py "captcha_manual_intervention.png")
    with (99%N :: 97%N :: 112%N :: 116%N :: 99%N :: 104%N :: 97%N :: 95%N
          :: py "manual_intervention.png").
  change (py "temp_captcha.png") with (116%N :: py "emp_captcha.png").
  change (py "preprocessed_captcha.png") with (112%N :: py "reprocessed_captcha.png").
  change (py "captcha_screenshot_" ++ str_of_int a ++ py ".png")
    with (99%N :: 97%N :: 112%N :: 116%N :: 99%N :: 104%N :: 97%N :: 95%N
          :: py "screenshot_" ++ str_of_int a ++ py ".png").
  change (py "captcha_screenshot_" ++ str_of_int a' ++ py ".png")
    with (99%N :: 97%N :: 112%N :: 116%N :: 99%N :: 104%N :: 97%N :: 95%N
          :: py "screenshot_" ++ str_of_int a' ++ py ".png").
  rewrite !Hjoin by discriminate.
  split.
  - repeat (apply NoDup_cons; split); try apply NoDup_nil;
      rewrite ?not_elem_of_cons; repeat split; try apply not_elem_of_nil;
      intros H; apply app_inv_head in H; discriminate H.
  - intros H. apply app_inv_head in H.
    injection H as H.
    eapply screenshot_name_inj; [exact H | reflexivity].
Qed.

(** The four debug files of an attempt have four different paths, whatever
    the output directory, and the screenshots of different attempts have
    different paths: no debug file overwrites another, and cleaning up one
    attempt cannot delete the screenshot of another. *)
Theorem artifact_paths_distinct (self : Solver) (a a' : Z) :
  NoDup (manual_screenshot_path self :: files_to_clean self a) /\
  (screenshot_path self a = screenshot_path self a' -> a = a').
Proof. apply debug_paths_distinct. Qed.

(** ** Files over a whole run *)

Lemma effect_inert (e : Event) (d : Disk) :
  written_path e = None -> removed_path e = None -> replay [e] d = d.
Proof.
  destruct e as [T c a]. unfold replay. cbn [fold_left].
  destruct c; cbn; try reflexivity; try discriminate;
    repeat match goal with
    | a : answer _ |- _ => destruct a
    | b : bool |- _ => destruct b
    end; try reflexivity; discriminate.
Qed.

Lemma replay_inert (evs : list Event) :
  written evs = [] -> removed evs = [] -> forall d, replay evs d = d.
Proof.
  induction evs as [|e evs IH]; intros Hw Hr d; [reflexivity|].
  change (e :: evs) with ([e] ++ evs) in *.
  rewrite written_app in Hw. rewrite removed_app in Hr.
  apply app_eq_nil in Hw as [Hw Hw']. apply app_eq_nil in Hr as [Hr Hr'].
  rewrite replay_app, effect_inert; [apply IH; assumption| |].
  - unfold written in Hw. cbn in Hw. destruct (written_path e); [discriminate|reflexivity].
  - unfold removed in Hr. cbn in Hr. destruct (removed_path e); [discriminate|reflexivity].
Qed.

Lemma effect_untouched (e : Event) (d : Disk) (p : pystr) :
  written_path e <> Some p -> removed_path e <> Some p ->
  (p ∈ replay [e] d <-> p ∈ d).
Proof.
  destruct e as [T c a]. unfold replay. cbn [fold_left].
  destruct c; cbn; intros Hw Hr; try reflexivity;
    repeat match goal with
    | a : answer _ |- _ => destruct a
    | b : bool |- _ => destruct b
    end; try reflexivity;
    match goal with
    | H : Some ?q <> Some p |- _ =>
        assert (q <> p) by (intros ->; apply H; reflexivity); set_solver
    end.
Qed.

Lemma written_one (e : Event) (p : pystr) :
  ~ In p (written [e]) -> written_path e <> Some p.
Proof.
  unfold written. cbn. destruct (written_path e); [|discriminate].
  intros H [= ->]. apply H. left. reflexivity.
Qed.

Lemma removed_one (e : Event) (p : pystr) :
  ~ In p (removed [e]) -> removed_path e <> Some p.
Proof.
  unfold removed. cbn. destruct (removed_path e); [|discriminate].
  intros H [= ->]. apply H. left. reflexivity.
Qed.

Lemma replay_untouched (evs : list Event) (p : pystr) :
  ~ In p (written evs) -> ~ In p (removed evs) ->
  forall d, p ∈ replay evs d <-> p ∈ d.
Proof.
  induction evs as [|e evs IH]; intros Hw Hr d; [reflexivity|].
  change (e :: evs) with ([e] ++ evs) in *.
  rewrite written_app in Hw. rewrite removed_app in Hr.
  rewrite replay_app, IH.
  - apply effect_untouched; [apply written_one | apply removed_one];
      intros H; [apply Hw | apply Hr]; apply in_or_app; left; exact H.
  - intros H. apply Hw, in_or_app. right. exact H.
  - intros H. apply Hr, in_or_app. right. exact H.
Qed.

Lemma effect_keeps_unremoved (e : Event) (d : Disk) (p : pystr) :
  removed_path e <> Some p ->
  p ∈ d \/ written_path e = Some p ->
  p ∈ replay [e] d.
Proof.
  destruct e as [T c a]. unfold replay. cbn [fold_left].
  destruct c; cbn; intros Hr [H|H];
    repeat match goal with
    | a : answer _ |- _ => destruct a
    | b : bool |- _ => destruct b
    end; try discriminate; try (injection H as <-); set_solver.
Qed.

Lemma replay_keeps_unremoved (evs : list Event) (p : pystr) :
  ~ In p (removed evs) ->
  forall d, p ∈ d \/ In p (written evs) -> p ∈ replay evs d.
Proof.
  induction evs as [|e evs IH]; intros Hr d Hp.
  - destruct Hp as [Hp|[]]. exact Hp.
  - change (e :: evs) with ([e] ++ evs) in *.
    rewrite removed_app in Hr. rewrite written_app in Hp.
    rewrite replay_app. apply IH.
    + intros H. apply Hr, in_or_app. right. exact H.
    + assert (removed_path e <> Some p) as He
        by (apply removed_one; intros H; apply Hr, in_or_app; left; exact H).
      destruct Hp as [Hp|Hp].
      * left. apply effect_keeps_unremoved; auto.
      * apply in_app_or in Hp as [Hp|Hp]; [|right; exact Hp].
        left. apply effect_keeps_unremoved; [exact He|]. right.
        unfold written in Hp. cbn in Hp. destruct (written_path e); [|contradiction].
        destruct Hp as [->|[]]. reflexivity.
Qed.

Section RunFiles.

Context (U : Unicode) {World : Type}.
Context (ext : forall T, extE T -> World -> answer T * World).

Lemma run_tracks_disk (self : Solver) (max_attempts : Z) (s : State World) :
  let r := solve_captcha_run U ext self max_attempts s in
  disk (final r) = replay (events r) (disk s).
Proof.
  cbv zeta.
  pose proof (solve_captcha_run_ok U ext self max_attempts s) as H.
  destruct (reader self).
  - destruct H as (b & h & _ & _ & _ & _ & _ & Hdisk & _). exact Hdisk.
  - rewrite H. reflexivity.
Qed.

Lemma solve_captcha_log (self : Solver) (max_attempts : Z) (s : State World) :
  exists b h,
    res (solve_captcha_run U ext self max_attempts s) = Ok (b, h) /\
    res (solve_captcha U ext self max_attempts s) = Ok b /\
    events (solve_captcha U ext self max_attempts s)
    = events (solve_captcha_run U ext self max_attempts s) /\
    final (solve_captcha U ext self max_attempts s)
    = final (solve_captcha_run U ext self max_attempts s).
Proof.
  destruct (solve_captcha_run_returns U ext self max_attempts s) as (b & h & Hrun).
  exists b, h. rewrite (solve_captcha_of_run U ext self max_attempts s b h Hrun).
  auto.
Qed.

(** Without debug output [solve_captcha] writes and deletes nothing: the
    disk at its end is the disk at its start. *)
Theorem no_debug_output_no_disk_change (self : Solver) (max_attempts : Z)
    (s : State World) :
  save_debug_output self = false ->
  let r := solve_captcha U ext self max_attempts s in
  written (events r) = [] /\ removed (events r) = [] /\
  disk (final r) = disk s.
Proof.
  intros Hd. cbv zeta.
  destruct (solve_captcha_log self max_attempts s) as (b & h & Hrun & _ & -> & ->).
  destruct (solve_captcha_run_more U ext self max_attempts s b h Hrun)
    as (_ & _ & Hoff & _).
  destruct (Hoff Hd) as [Hw Hr].
  split; [exact Hw|]. split; [exact Hr|].
  rewrite run_tracks_disk. apply replay_inert; assumption.
Qed.

(** A run writes only files of its attempts and deletes only files of its
    last attempt; whether any other path is on disk is the same at the end
    as at the start. *)
Theorem only_attempt_files_touched (self : Solver) (max_attempts : Z)
    (s : State World) (b : bool) (h : list Z) :
  let r := solve_captcha_run U ext self max_attempts s in
  res r = Ok (b, h) ->
  Forall (fun path => exists a, In a h /\ In path (files_to_clean self a))
         (written (events r)) /\
  Forall (fun path => exists a, last h = Some a /\ In path (files_to_clean self a))
         (removed (events r)) /\
  forall path,
    (forall a, In a h -> ~ In path (files_to_clean self a)) ->
    (path ∈ disk (final r) <-> path ∈ disk s).
Proof.
  cbv zeta. intros Hrun.
  destruct (solve_captcha_run_more U ext self max_attempts s b h Hrun)
    as (Hw & Hr & _).
  split; [exact Hw|]. split; [exact Hr|].
  intros path Hother. rewrite run_tracks_disk.
  rewrite List.Forall_forall in Hw, Hr.
  apply replay_untouched.
  - intros Hin. destruct (Hw path Hin) as (a & Ha & Hp). exact (Hother a Ha Hp).
  - intros Hin. destruct (Hr path Hin) as (a & Ha & Hp).
    apply (Hother a); [|exact Hp].
    destruct h as [|x h'] using rev_ind; [discriminate Ha|].
    rewrite last_snoc in Ha. injection Ha as ->. apply in_or_app. right. left. reflexivity.
Qed.

(** The screenshot of an attempt that was not the last one of the run is
    never deleted: if it was on disk before the run or was written during
    the run, it is on disk at the end. *)
Theorem earlier_screenshots_survive (self : Solver) (max_attempts : Z)
    (s : State World) (b : bool) (h : list Z) (attempt : Z) :
  let r := solve_captcha_run U ext self max_attempts s in
  res r = Ok (b, h) ->
  last h <> Some attempt ->
  screenshot_path self attempt ∈ disk s \/
  In (screenshot_path self attempt) (written (events r)) ->
  screenshot_path self attempt ∈ disk (final r).
Proof.
  cbv zeta. intros Hrun Hlast Hthere.
  destruct (solve_captcha_run_more U ext self max_attempts s b h Hrun)
    as (_ & Hr & _).
  rewrite run_tracks_disk. apply replay_keeps_unremoved; [|exact Hthere].
  intros Hin. rewrite List.Forall_forall in Hr.
  destruct (Hr _ Hin) as (a & Ha & Hp).
  destruct (debug_paths_distinct self a attempt) as [Hnd Hinj].
  destruct (debug_paths_distinct self attempt a) as [Hnd' _].
  unfold files_to_clean in *. cbn [In] in Hp.
  apply NoDup_cons in Hnd' as [_ Hnd'].
  rewrite !NoDup_cons, !not_elem_of_cons in Hnd'.
  destruct Hnd' as ((_ & Ht & _) & (Hpp & _) & _).
  destruct Hp as [Hp|[Hp|[Hp|[]]]].
  - apply Ht. exact Hp.
  - apply Hpp. exact Hp.
  - apply Hlast. rewrite Ha. f_equal. apply Hinj. exact Hp.
Qed.

(** [solve_captcha] returns [True] only when its last query for the
    challenge input found it absent. *)
Theorem solved_only_after_absence (self : Solver) (max_attempts : Z)
    (s : State World) :
  let r := solve_captcha U ext self max_attempts s in
  res r = Ok true ->
  exists q, last_input_query (events r) = Some q /\ input_absent q = true.
Proof.
  cbv zeta.
  destruct (solve_captcha_log self max_attempts s) as (b & h & Hrun & -> & -> & _).
  intros [= ->].
  destruct (solve_captcha_run_more U ext self max_attempts s true h Hrun)
    as (_ & _ & _ & _ & _ & _ & Habs).
  apply Habs. reflexivity.
Qed.

(** Every text [solve_captcha] types into the page is the corrected text of
    a reading the engine made in the same run. *)
Theorem only_readings_submitted (self : Solver) (max_attempts : Z)
    (s : State World) :
  let r := solve_captcha U ext self max_attempts s in
  Forall (fun text => In text (readings U (events r))) (submitted (events r)).
Proof.
  cbv zeta.
  destruct (solve_captcha_log self max_attempts s) as (b & h & Hrun & _ & -> & _).
  apply (solve_captcha_run_more U ext self max_attempts s b h Hrun).
Qed.

(** [solve_captcha] downloads at most [max_attempts] images and submits at
    most [max_attempts] texts. *)
Theorem downloads_and_submissions_bounded (self : Solver) (max_attempts : Z)
    (s : State World) :
  let r := solve_captcha U ext self max_attempts s in
  (length (List.filter is_download (events r)) <= Z.to_nat max_attempts)%nat /\
  (length (submitted (events r)) <= Z.to_nat max_attempts)%nat.
Proof.
  cbv zeta.
  destruct (solve_captcha_log self max_attempts s) as (b & h & Hrun & _ & -> & _).
  destruct (solve_captcha_run_more U ext self max_attempts s b h Hrun)
    as (_ & _ & _ & Hdl & _ & Hsub & _).
  rewrite Z.sub_0_r in *. split; assumption.
Qed.

(** With [max_attempts <= 0] the loop body is never entered: [solve_captcha]
    returns [False] without a single call, in the state it started in. *)
Theorem no_attempts_allowed (self : Solver) (max_attempts : Z) (s : State World) :
  max_attempts <= 0 ->
  solve_captcha U ext self max_attempts s = mkRun (Ok false) [] s.
Proof.
  intros Hmax. unfold solve_captcha, solve_captcha_run, bind.
  destruct (reader self); [|reflexivity].
  cbn [attempt_loop].
  destruct (Z.ltb_spec 0 max_attempts) as [Hlt|_]; [lia|]. reflexivity.
Qed.

(** A pass of a solver with an engine that does not reach the engine (the
    input is absent, or the image could not be had or processed, or a call
    raised) neither submits a text nor asks the page for another image. *)
Theorem failed_acquisition_is_idle (self : Solver) (attempt : Z) (s : State World) :
  reader self <> None ->
  let r := loop_body U ext self attempt s in
  List.filter is_recognition (events r) = [] ->
  submitted (events r) = [] /\ List.filter asks_new_image (events r) = [].
Proof.
  intros Hreader. cbv zeta.
  apply (loop_body_pass_ok U ext self attempt s). exact Hreader.
Qed.

End RunFiles.

(** ** The manual wait, whatever the clock does *)

Ltac wait_norm :=
  cbv beta iota zeta delta
      [bind try_except call ret raise when path_exists
       world disk res events final snd];
  cbn [app].

Section WaitMore.

Context (U : Unicode) {World : Type}.
Context (ext : forall T, extE T -> World -> answer T * World).

Lemma wait_loop_log (self : Solver) (start : Q) (fuel : nat) :
  forall s : State World,
    let r := wait_loop ext self fuel start s in
    Forall (wait_event self) (events r) /\
    (forall e, res r = Raise e -> exists pre, events r = pre ++ [Ev Time Raises]) /\
    (res r = Ok true ->
     exists pre q post,
       events r = pre ++ q :: post /\ ends_wait q = true /\
       forallb is_removal post = true).
Proof.
  induction fuel as [|fuel IH]; intros [w d]; cbv zeta.
  { cbn. split; [constructor|]. split; intros; discriminate. }
  cbn [wait_loop]. wait_norm.
  destruct (ext Q Time w) as [[t|] w1]; wait_norm.
  2: { split; [repeat constructor|]. split; [|discriminate].
       intros e _. exists []. reflexivity. }
  destruct (Qlt_le_dec (float_sub t start) max_wait) as [Hlt|Hge]; wait_norm.
  2: { split; [repeat constructor|]. split; discriminate. }
  destruct (ext unit (FindElement CaptchaInput) w1) as [[[]|] w2]; wait_norm.
  - destruct (ext unit (Sleep 2) w2) as [[[]|] w3]; wait_norm.
    + match goal with |- context [wait_loop ext self fuel start ?st] =>
        specialize (IH st); cbv zeta in IH; revert IH;
        destruct (wait_loop ext self fuel start st) as [r' evs' s'] end.
      cbn [res events]. intros (Hall & Hraise & Htrue).
      split; [repeat constructor; exact Hall|]. split.
      * intros e He. destruct (Hraise e He) as (pre & ->).
        exists (Ev Time (Returns t) :: Ev (FindElement CaptchaInput) (Returns tt)
                :: Ev (Sleep 2) (Returns tt) :: pre). reflexivity.
      * intros He. destruct (Htrue He) as (pre & q & post & -> & Hq & Hpost).
        exists (Ev Time (Returns t) :: Ev (FindElement CaptchaInput) (Returns tt)
                :: Ev (Sleep 2) (Returns tt) :: pre), q, post. auto.
    + destruct (save_debug_output self) eqn:Hd; cbn [andb];
        [destruct (bool_decide _)|]; wait_norm;
        try (match goal with |- context [ext ?T ?c ?w] =>
               destruct (ext T c w) as [[[]|] ?] end; wait_norm);
        (split; [repeat constructor; exact Hd|]); (split; [discriminate|]); intros _;
        exists [Ev Time (Returns t); Ev (FindElement CaptchaInput) (Returns tt)],
               (Ev (Sleep 2) Raises); eexists; (split; [reflexivity|]);
        split; reflexivity.
  - destruct (save_debug_output self) eqn:Hd; cbn [andb];
      [destruct (bool_decide _)|]; wait_norm;
      try (match goal with |- context [ext ?T ?c ?w] =>
             destruct (ext T c w) as [[[]|] ?] end; wait_norm);
      (split; [repeat constructor; exact Hd|]); (split; [discriminate|]); intros _;
      exists [Ev Time (Returns t)], (Ev (FindElement CaptchaInput) Raises);
      eexists; (split; [reflexivity|]); split; reflexivity.
Qed.

Lemma fallback_log_any (self : Solver) (max_attempts : Z) (fuel : nat)
    (s : State World) :
  class self = AmazonCaptchaSolver ->
  let r0 := solve_captcha U ext self max_attempts s in
  let r := solve_captcha_with_fallback U ext self max_attempts fuel s in
  exists fb,
    events r = events r0 ++ fb /\
    Forall (wait_event self) fb /\
    (forall e, res r <> Raise e) /\
    (res r0 = Ok true -> fb = []) /\
    (res r0 = Ok false -> res r = Ok true ->
     exists pre q post,
       fb = pre ++ q :: post /\ ends_wait q = true /\
       forallb is_removal post = true).
Proof.
  intros Hclass. cbv zeta.
  unfold solve_captcha_with_fallback. rewrite Hclass.
  destruct (solve_captcha_run_returns U ext self max_attempts s) as (b0 & h & Hrun).
  wait_norm.
  rewrite (solve_captcha_of_run U ext self max_attempts s b0 h Hrun).
  generalize (events (solve_captcha_run U ext self max_attempts s)) as evs0.
  generalize (final (solve_captcha_run U ext self max_attempts s)) as s0.
  intros [w d] evs0. clear Hrun.
  destruct b0; wait_norm.
  { exists []. split; [reflexivity|]. split; [constructor|].
    split; [discriminate|]. split; [reflexivity|]. discriminate. }
  assert (forall (pre : list Event) (start : Q) (st : State World),
            Forall (wait_event self) pre ->
            let r := wait_loop ext self fuel start st in
            Forall (wait_event self) (pre ++ Ev Time (Returns start) :: events r) /\
            (res r = Ok true ->
             exists pre' q post,
               pre ++ Ev Time (Returns start) :: events r = pre' ++ q :: post /\
               ends_wait q = true /\ forallb is_removal post = true)) as Hwait.
  { intros pre start st Hpre. cbv zeta.
    destruct (wait_loop_log self start fuel st) as (Hall & _ & Htrue).
    split.
    - apply Forall_app. split; [exact Hpre|]. constructor; [constructor | exact Hall].
    - intros He. destruct (Htrue He) as (pre' & q & post & -> & Hq & Hpost).
      exists (pre ++ Ev Time (Returns start) :: pre'), q, post.
      split; [|auto]. rewrite <- app_assoc. reflexivity. }
  destruct (save_debug_output self) eqn:Hdbg; wait_norm.
  - destruct (ext bool (SaveScreenshot (manual_screenshot_path self)) w)
      as [[saved|] w1]; wait_norm.
    + destruct (ext Q Time w1) as [[start|] w2]; wait_norm.
      * match goal with |- context [wait_loop ext self fuel start ?st] =>
          destruct (Hwait [Ev (SaveScreenshot (manual_screenshot_path self))
                              (Returns saved)] start st) as [Hall Htrue];
            [repeat constructor; exact Hdbg|];
          revert Hall Htrue;
          destruct (wait_loop ext self fuel start st) as [[b| |] evs' s'] end;
          cbn [res events app]; intros Hall Htrue;
          wait_norm; rewrite ?app_nil_r;
          eexists; (split; [reflexivity|]); (split; [exact Hall|]);
          (split; [discriminate|]); (split; [discriminate|]);
          intros _ He; first [apply Htrue; exact He | discriminate He].
      * eexists. split; [reflexivity|]. split; [repeat constructor; exact Hdbg|].
        split; [discriminate|]. split; discriminate.
    + eexists. split; [reflexivity|]. split; [repeat constructor; exact Hdbg|].
      split; [discriminate|]. split; discriminate.
  - destruct (ext Q Time w) as [[start|] w2]; wait_norm.
    + match goal with |- context [wait_loop ext self fuel start ?st] =>
        destruct (Hwait [] start st) as [Hall Htrue]; [constructor|];
        revert Hall Htrue;
        destruct (wait_loop ext self fuel start st) as [[b| |] evs' s'] end;
        cbn [res events app]; intros Hall Htrue;
        wait_norm; rewrite ?app_nil_r;
        eexists; (split; [reflexivity|]); (split; [exact Hall|]);
        (split; [discriminate|]); (split; [discriminate|]);
        intros _ He; first [apply Htrue; exact He | discriminate He].
    + eexists. split; [reflexivity|]. split; [repeat constructor|].
      split; [discriminate|]. split; discriminate.
Qed.

(** Whatever the clock and the page do, [solve_captcha_with_fallback] lets
    no exception escape, and what it does after [solve_captcha] is made of
    readings of the clock, polls of the challenge input, sleeps of two
    seconds and, with debug output, the screenshot for the developer and
    its deletion: nothing is downloaded, recognised, typed or clicked.
    After a [solve_captcha] that returned [True] it does nothing at all. *)
Theorem fallback_only_waits (self : Solver) (max_attempts : Z) (fuel : nat)
    (s : State World) :
  class self = AmazonCaptchaSolver ->
  let r0 := solve_captcha U ext self max_attempts s in
  let r := solve_captcha_with_fallback U ext self max_attempts fuel s in
  (forall e, res r <> Raise e) /\
  exists fb,
    events r = events r0 ++ fb /\
    Forall (wait_event self) fb /\
    (res r0 = Ok true -> fb = []).
Proof.
  intros Hclass. cbv zeta.
  destruct (fallback_log_any self max_attempts fuel s Hclass)
    as (fb & Hevs & Hall & Hraise & Hnil & _).
  split; [exact Hraise|]. exists fb. auto.
Qed.

(** When [solve_captcha] returned [False] and the fallback returns [True],
    the fallback ended on a poll that found the challenge input absent or
    on a sleep that raised, followed by nothing but the deletion of the
    screenshot. *)
Theorem fallback_success_cause (self : Solver) (max_attempts : Z) (fuel : nat)
    (s : State World) :
  class self = AmazonCaptchaSolver ->
  let r0 := solve_captcha U ext self max_attempts s in
  let r := solve_captcha_with_fallback U ext self max_attempts fuel s in
  res r0 = Ok false -> res r = Ok true ->
  exists pre q post,
    events r = events r0 ++ pre ++ q :: post /\
    ends_wait q = true /\ forallb is_removal post = true.
Proof.
  intros Hclass. cbv zeta. intros H0 Hr.
  destruct (fallback_log_any self max_attempts fuel s Hclass)
    as (fb & Hevs & _ & _ & _ & Hcause).
  destruct (Hcause H0 Hr) as (pre & q & post & -> & Hq & Hpost).
  exists pre, q, post. auto.
Qed.

End WaitMore.

(** ** The two Selenium classes side by side *)

Section ClassProperties.
Context (U : Unicode) {World : Type}.
Context (ext : forall T, extE T -> World -> answer T * World).

Ltac exec_step :=
  match goal with
  | |- context [ext ?T ?c ?w] =>
      let a := fresh "a" in let w' := fresh "w" in
      destruct (ext T c w) as [[a|] w'] eqn:?
  | |- context [if negb ?b then _ else _] => destruct b eqn:?; cbn [negb]
  | |- context [if ?b then _ else _] => destruct b eqn:?
  | |- context [match ?x with Some _ => _ | None => _ end] => destruct x eqn:?
  end; norm_more.

Ltac exec := norm_more; cbn [negb andb]; repeat exec_step.

Lemma selenium_pass_compare (dir : pystr) (dbg : bool) (rd : option unit)
    (attempt : Z) (s : State World) :
  let ra := loop_body U ext (mkSolver AmazonCaptchaSolver dir dbg rd) attempt s in
  let rs := loop_body U ext (mkSolver SeleniumCaptchaSolver dir dbg rd) attempt s in
  (rs = ra /\
   (res ra = Ok (Return true) -> exists q, events ra = [q] /\ input_absent q = true)) \/
  (res ra = Ok (Return true) /\ res rs = Ok (Continue (attempt + 1)) /\
   (exists cleanup,
      events ra = events rs ++ cleanup /\ forallb is_removal cleanup = true) /\
   (exists q, after_submission (events rs) = Some (q, []) /\ input_absent q = true)).
Proof.
  destruct s as [w d]. cbv zeta.
  remember (loop_body U ext (mkSolver AmazonCaptchaSolver _ _ _) attempt _) as ra eqn:Ha.
  remember (loop_body U ext (mkSolver SeleniumCaptchaSolver _ _ _) attempt _) as rs eqn:Hs.
  revert Ha Hs.
  destruct dbg, rd as [[]|].
  all: norm_more; cbn [negb andb];
       unfold temp_img_path, preprocessed_path, screenshot_path; cbn [output_dir];
       repeat exec_step.
  all: intros -> ->.
  all: try match goal with
       | H : (len (py "") <? 4) = false |- _ => vm_compute in H; discriminate H
       end.
  all: read_more.
  all: first
    [ left; split; [reflexivity|]; intros Hres;
      first [discriminate Hres | eexists; split; reflexivity]
    | right; split; [reflexivity|]; split; [reflexivity|];
      split; [eexists; split; reflexivity | eexists; split; reflexivity] ].
Qed.

(** [SeleniumCaptchaSolver] and [AmazonCaptchaSolver] share the loop body.
    A pass of the one is the pass of the other, call for call, with one
    exception: when the query after a submission finds the challenge input
    absent, [AmazonCaptchaSolver] deletes its files and returns [True],
    while [SeleniumCaptchaSolver] stops at that query and goes on to the
    next attempt. *)
Theorem selenium_pass_vs_amazon (dir : pystr) (dbg : bool) (rd : option unit)
    (attempt : Z) (s : State World) :
  let ra := loop_body U ext (mkSolver AmazonCaptchaSolver dir dbg rd) attempt s in
  let rs := loop_body U ext (mkSolver SeleniumCaptchaSolver dir dbg rd) attempt s in
  (rs = ra /\
   (res ra = Ok (Return true) -> exists q, events ra = [q] /\ input_absent q = true)) \/
  (res ra = Ok (Return true) /\ res rs = Ok (Continue (attempt + 1)) /\
   (exists cleanup,
      events ra = events rs ++ cleanup /\ forallb is_removal cleanup = true) /\
   (exists q, after_submission (events rs) = Some (q, []) /\ input_absent q = true)).
Proof. apply selenium_pass_compare. Qed.

(** A run of [SeleniumCaptchaSolver] returns [True] only from a pass that
    found the challenge input absent at its first query.  The run is the
    run limited to [attempt] attempts, which ends with [False], followed by
    the pass of attempt [attempt], and that pass consists of the one query:
    nothing is downloaded or typed in it. *)
Theorem selenium_true_means_no_challenge (self : Solver) (max_attempts : Z)
    (s : State World) (h : list Z) :
  class self = SeleniumCaptchaSolver ->
  let r := solve_captcha_run U ext self max_attempts s in
  res r = Ok (true, h) ->
  exists attempt q,
    last h = Some attempt /\
    let before := solve_captcha_run U ext self attempt s in
    let pass := loop_body U ext self attempt (final before) in
    res before = Ok (false, h) /\
    res pass = Ok (Return true) /\
    events pass = [q] /\ input_absent q = true /\
    events r = events before ++ [q] /\
    final r = final pass.
Proof.
  intros Hclass. cbv zeta. intros Hres.
  destruct (solve_captcha_run_split U ext self max_attempts s h Hres)
    as (attempt & Hl & _ & Hbefore & Hpass & Hevs & Hfin).
  cbv zeta in Hbefore, Hpass, Hevs, Hfin.
  destruct self as [c dir dbg rd]. cbn [class] in Hclass. subst c.
  destruct (selenium_pass_compare dir dbg rd attempt
              (final (solve_captcha_run U ext
                        (mkSolver SeleniumCaptchaSolver dir dbg rd) attempt s)))
    as [[Heq Hone]|(_ & Hcont & _)].
  - pose proof Hpass as Hpass'. rewrite Heq in Hpass'.
    destruct (Hone Hpass') as (q & Hq & Habs). rewrite <- Heq in Hq.
    exists attempt, q. rewrite Hevs, Hq. auto 10.
  - rewrite Hpass in Hcont. discriminate Hcont.
Qed.

End ClassProperties.

(** ** Instances of the further properties *)

Lemma corrector_length_on_ascii_witness :
  Forall (fun c => is_ascii c = true) (py "a1 b-") /\
  length (_fix_common_errors unicode_excerpt (py "a1 b-"))
  = length (List.filter (isalnum unicode_excerpt) (py "a1 b-")) /\
  len (_fix_common_errors unicode_excerpt (py "a1 b-")) <= len (py "a1 b-").
Proof.
  assert (Forall (fun c => is_ascii c = true) (py "a1 b-")) as Ha
    by (repeat constructor).
  split; [exact Ha|].
  apply (corrector_length_on_ascii unicode_excerpt (py "a1 b-") Ha).
Defined.

Lemma corrector_fixed_points_on_ascii_witness :
  Forall (fun c => is_ascii c = true) (py "AB29") /\
  (_fix_common_errors unicode_excerpt (py "AB29") = py "AB29" <->
   Forall (fun c => canonical c = true) (py "AB29")).
Proof.
  assert (Forall (fun c => is_ascii c = true) (py "AB29")) as Ha
    by (repeat constructor).
  split; [exact Ha|].
  apply (corrector_fixed_points_on_ascii unicode_excerpt (py "AB29") Ha).
Defined.

Lemma recognition_preprocessing_redundant_witness :
  Forall (fun c => is_ascii c = true) (join [py " ab"; py "1c "]) /\
  recognized_text unicode_excerpt (Returns [py " ab"; py "1c "])
  = join (map (_fix_common_errors unicode_excerpt) [py " ab"; py "1c "]).
Proof.
  assert (Forall (fun c => is_ascii c = true) (join [py " ab"; py "1c "])) as Ha
    by (repeat constructor).
  split; [exact Ha|].
  apply (recognition_preprocessing_redundant unicode_excerpt
           [py " ab"; py "1c "] Ha).
Defined.

Lemma replacement_order_immaterial_witness :
  Permutation replacements (rev replacements) /\
  fold_left (fun text '(error, correction) => replace error correction text)
            (rev replacements)
            (upper unicode_excerpt
                   (List.filter (isalnum unicode_excerpt) (py "a0-18.5")))
  = _fix_common_errors unicode_excerpt (py "a0-18.5").
Proof.
  assert (Permutation replacements (rev replacements)) as H
    by apply Permutation_rev.
  split; [exact H|].
  apply (replacement_order_immaterial unicode_excerpt (rev replacements)
           (py "a0-18.5") H).
Defined.

Lemma no_debug_output_no_disk_change_witness :
  save_debug_output amazon_solver = false /\
  written (events (solve_captcha unicode_excerpt scripted amazon_solver 1
                                 solved_at_once)) = [] /\
  removed (events (solve_captcha unicode_excerpt scripted amazon_solver 1
                                 solved_at_once)) = [] /\
  disk (final (solve_captcha unicode_excerpt scripted amazon_solver 1
                             solved_at_once)) = disk solved_at_once.
Proof.
  split; [reflexivity|].
  apply (no_debug_output_no_disk_change unicode_excerpt scripted amazon_solver 1
           solved_at_once eq_refl).
Defined.

Lemma only_attempt_files_touched_witness :
  res (solve_captcha_run unicode_excerpt scripted amazon_debug_solver 2
                         solved_at_second_try) = Ok (true, [0; 1]) /\
  Forall (fun path => exists a, In a [0; 1] /\
                                In path (files_to_clean amazon_debug_solver a))
         (written (events (solve_captcha_run unicode_excerpt scripted
                             amazon_debug_solver 2 solved_at_second_try))) /\
  Forall (fun path => exists a, last [0; 1] = Some a /\
                                In path (files_to_clean amazon_debug_solver a))
         (removed (events (solve_captcha_run unicode_excerpt scripted
                             amazon_debug_solver 2 solved_at_second_try))) /\
  forall path,
    (forall a, In a [0; 1] -> ~ In path (files_to_clean amazon_debug_solver a)) ->
    (path ∈ disk (final (solve_captcha_run unicode_excerpt scripted
                           amazon_debug_solver 2 solved_at_second_try))
     <-> path ∈ disk solved_at_second_try).
Proof.
  assert (res (solve_captcha_run unicode_excerpt scripted amazon_debug_solver 2
                 solved_at_second_try) = Ok (true, [0; 1])) as Hres
    by (vm_compute; reflexivity).
  split; [exact Hres|].
  apply (only_attempt_files_touched unicode_excerpt scripted amazon_debug_solver
           2 solved_at_second_try true [0; 1] Hres).
Defined.

Lemma earlier_screenshots_survive_witness :
  res (solve_captcha_run unicode_excerpt scripted amazon_debug_solver 2
                         solved_at_second_try) = Ok (true, [0; 1]) /\
  last [0; 1] <> Some 0 /\
  In (screenshot_path amazon_debug_solver 0)
     (written (events (solve_captcha_run unicode_excerpt scripted
                         amazon_debug_solver 2 solved_at_second_try))) /\
  screenshot_path amazon_debug_solver 0
  ∈ disk (final (solve_captcha_run unicode_excerpt scripted
                   amazon_debug_solver 2 solved_at_second_try)).
Proof.
  assert (res (solve_captcha_run unicode_excerpt scripted amazon_debug_solver 2
                 solved_at_second_try) = Ok (true, [0; 1])) as Hres
    by (vm_compute; reflexivity).
  assert (last [0; 1] <> Some 0) as Hlast by (cbn; discriminate).
  assert (In (screenshot_path amazon_debug_solver 0)
            (written (events (solve_captcha_run unicode_excerpt scripted
                                amazon_debug_solver 2 solved_at_second_try))))
    as Hw by (vm_compute; auto).
  split; [exact Hres|]. split; [exact Hlast|]. split; [exact Hw|].
  apply (earlier_screenshots_survive unicode_excerpt scripted amazon_debug_solver
           2 solved_at_second_try true [0; 1] 0 Hres Hlast).
  right. exact Hw.
Defined.

Lemma solved_only_after_absence_witness :
  res (solve_captcha unicode_excerpt scripted amazon_solver 1 solved_at_once)
  = Ok true /\
  exists q,
    last_input_query (events (solve_captcha unicode_excerpt scripted
                                amazon_solver 1 solved_at_once)) = Some q /\
    input_absent q = true.
Proof.
  assert (res (solve_captcha unicode_excerpt scripted amazon_solver 1
                 solved_at_once) = Ok true) as Hres
    by (vm_compute; reflexivity).
  split; [exact Hres|].
  apply (solved_only_after_absence unicode_excerpt scripted amazon_solver 1
           solved_at_once Hres).
Defined.

Lemma no_attempts_allowed_witness :
  0 <= 0 /\
  solve_captcha unicode_excerpt scripted amazon_solver 0 solved_at_once
  = mkRun (Ok false) [] solved_at_once.
Proof.
  assert (0 <= 0) as H by lia.
  split; [exact H|].
  apply (no_attempts_allowed unicode_excerpt scripted amazon_solver 0
           solved_at_once H).
Defined.

Lemma failed_acquisition_is_idle_witness :
  reader amazon_solver <> None /\
  List.filter is_recognition
    (events (loop_body unicode_excerpt scripted amazon_solver 0 no_image)) = [] /\
  submitted (events (loop_body unicode_excerpt scripted amazon_solver 0
                               no_image)) = [] /\
  List.filter asks_new_image
    (events (loop_body unicode_excerpt scripted amazon_solver 0 no_image)) = [].
Proof.
  assert (reader amazon_solver <> None) as Hreader by discriminate.
  assert (List.filter is_recognition
            (events (loop_body unicode_excerpt scripted amazon_solver 0
                               no_image)) = []) as Hnone
    by (vm_compute; reflexivity).
  split; [exact Hreader|]. split; [exact Hnone|].
  apply (failed_acquisition_is_idle unicode_excerpt scripted amazon_solver 0
           no_image Hreader Hnone).
Defined.

Lemma selenium_true_means_no_challenge_witness :
  class selenium_solver = SeleniumCaptchaSolver /\
  res (solve_captcha_run unicode_excerpt scripted selenium_solver 1
                         no_challenge) = Ok (true, [0]) /\
  exists attempt q,
    last [0] = Some attempt /\
    let r := solve_captcha_run unicode_excerpt scripted selenium_solver 1
                               no_challenge in
    let before := solve_captcha_run unicode_excerpt scripted selenium_solver
                                    attempt no_challenge in
    let pass := loop_body unicode_excerpt scripted selenium_solver attempt
                          (final before) in
    res before = Ok (false, [0]) /\
    res pass = Ok (Return true) /\
    events pass = [q] /\ input_absent q = true /\
    events r = events before ++ [q] /\
    final r = final pass.
Proof.
  assert (res (solve_captcha_run unicode_excerpt scripted selenium_solver 1
                 no_challenge) = Ok (true, [0])) as Hres
    by (vm_compute; reflexivity).
  split; [reflexivity|]. split; [exact Hres|].
  apply (selenium_true_means_no_challenge unicode_excerpt scripted
           selenium_solver 1 no_challenge [0] eq_refl Hres).
Defined.

Lemma fallback_only_waits_witness :
  class amazon_solver = AmazonCaptchaSolver /\
  (forall e, res (solve_captcha_with_fallback unicode_excerpt scripted
                    amazon_solver 1 61 no_image) <> Raise e) /\
  exists fb,
    events (solve_captcha_with_fallback unicode_excerpt scripted amazon_solver
                                        1 61 no_image)
    = events (solve_captcha unicode_excerpt scripted amazon_solver 1 no_image)
      ++ fb /\
    Forall (wait_event amazon_solver) fb /\
    (res (solve_captcha unicode_excerpt scripted amazon_solver 1 no_image)
     = Ok true -> fb = []).
Proof.
  split; [reflexivity|].
  apply (fallback_only_waits unicode_excerpt scripted amazon_solver 1 61
           no_image eq_refl).
Defined.

Lemma fallback_success_cause_witness :
  class amazon_solver = AmazonCaptchaSolver /\
  res (solve_captcha unicode_excerpt interrupted amazon_solver 1
                     (mkState tt ∅)) = Ok false /\
  res (solve_captcha_with_fallback unicode_excerpt interrupted amazon_solver
                                   1 3 (mkState tt ∅)) = Ok true /\
  exists pre q post,
    events (solve_captcha_with_fallback unicode_excerpt interrupted
              amazon_solver 1 3 (mkState tt ∅))
    = events (solve_captcha unicode_excerpt interrupted amazon_solver 1
                            (mkState tt ∅)) ++ pre ++ q :: post /\
    ends_wait q = true /\ forallb is_removal post = true.
Proof.
  assert (res (solve_captcha unicode_excerpt interrupted amazon_solver 1
                 (mkState tt ∅)) = Ok false) as H0
    by (vm_compute; reflexivity).
  assert (res (solve_captcha_with_fallback unicode_excerpt interrupted
                 amazon_solver 1 3 (mkState tt ∅)) = Ok true) as Hr
    by (vm_compute; reflexivity).
  split; [reflexivity|]. split; [exact H0|]. split; [exact Hr|].
  apply (fallback_success_cause unicode_excerpt interrupted amazon_solver 1 3
           (mkState tt ∅) eq_refl H0 Hr).
Defined.
